(** * corpusbuilder/news_crawler.py: archive walk and URL frontier

    A shallow embedding of [NewsArchiveCrawler] and [NewsArticleCrawler].
    URL sets are [gset string]; the downloader, the extractors and the
    converter are collaborators, taken as parameters; loops that need not
    end on every site ([while] over archive pages, [while] over the new
    URLs) take fuel. Everything the crawlers do that can be observed from
    outside (downloads, converter calls, log lines) is recorded in a trace. *)

From Stdlib Require Import ZArith String Ascii List Lia Bool.
From stdpp Require Import base tactics option list sorting gmap sets strings pretty.

Local Open Scope string_scope.
Local Open Scope list_scope.
Local Open Scope Z_scope.

(** ** Strings: [str.replace] and [str.format] *)

Module PyStr.

(** [s.replace(old, new)] for a non-empty [old]: every occurrence of [old]
    is replaced, scanning from the left, occurrences not overlapping.
    [skip] counts the characters of a matched [old] still to be dropped. *)
Fixpoint replace_from (old new : string) (skip : nat) (s : string) : string :=
  match s with
  | EmptyString => EmptyString
  | String c s' =>
      match skip with
      | S k => replace_from old new k s'
      | O =>
          if String.prefix old s
          then new +:+ replace_from old new (Nat.pred (String.length old)) s'
          else String c (replace_from old new O s')
      end
  end.

Definition replace (old new s : string) : string := replace_from old new O s.

(** ['{0:0Wd}'.format(n)] for [0 <= n]: the decimal digits of [n], padded
    on the left with zeros up to width [W]. *)
Definition zero_pad (width : nat) (digits : string) : string :=
  String.concat "" (repeat "0" (width - String.length digits)) +:+ digits.

Definition format_0d (width : nat) (n : Z) : string := zero_pad width (pretty n).

(** ['{0}{1}'.format(base, n)] for a string and an [int]. *)
Definition format_concat (base : string) (n : Z) : string := base +:+ pretty n.

(** Python's white space: the code points for which [str.isspace()] holds,
    each by the bytes of its UTF-8 encoding. These are U+0009 to U+000D,
    U+001C to U+0020, U+0085, U+00A0, U+1680, U+2000 to U+200A, U+2028,
    U+2029, U+202F, U+205F and U+3000. *)
Definition whitespace : list (list ascii) :=
  (fun bytes : list Z => (fun b => ascii_of_nat (Z.to_nat b)) <$> bytes) <$>
  [ [9]; [10]; [11]; [12]; [13]; [28]; [29]; [30]; [31]; [32];
    [194; 133]; [194; 160]; [225; 154; 128];
    [226; 128; 128]; [226; 128; 129]; [226; 128; 130]; [226; 128; 131];
    [226; 128; 132]; [226; 128; 133]; [226; 128; 134]; [226; 128; 135];
    [226; 128; 136]; [226; 128; 137]; [226; 128; 138];
    [226; 128; 168]; [226; 128; 169]; [226; 128; 175]; [226; 129; 159];
    [227; 128; 128] ].

(** The rest of [s] after the first of [chars] that [s] starts with. *)
Fixpoint drop_first (chars : list (list ascii)) (s : list ascii) : option (list ascii) :=
  match chars with
  | [] => None
  | c :: chars' =>
      if bool_decide (take (length c) s = c) then Some (drop (length c) s)
      else drop_first chars' s
  end.

(** [s] without the characters of [chars] it starts with; [fuel] bounds
    their number, the length of [s] is enough. *)
Fixpoint strip_left (chars : list (list ascii)) (fuel : nat) (s : list ascii) : list ascii :=
  match fuel with
  | O => s
  | S fuel' =>
      match drop_first chars s with
      | Some s' => strip_left chars fuel' s'
      | None => s
      end
  end.

Definition lstrip_bytes (s : list ascii) : list ascii := strip_left whitespace (length s) s.

(** At the end of a UTF-8 string the bytes of a character are a character. *)
Definition rstrip_bytes (s : list ascii) : list ascii :=
  reverse (strip_left (reverse <$> whitespace) (length s) (reverse s)).

(** [s.strip()], on the UTF-8 bytes of [s]. *)
Definition strip (s : string) : string :=
  string_of_list_ascii (rstrip_bytes (lstrip_bytes (list_ascii_of_string s))).

End PyStr.

(** ** Dates: [datetime.date] by its proleptic Gregorian ordinal *)

Module PyDate.

(** A [date] is its ordinal ([date.toordinal()]): 1 is 0001-01-01.
    Comparison of dates is comparison of ordinals,
    [d + timedelta(days=k)] is [d + k] and [(d2 - d1).days] is [d2 - d1]. *)
Definition date := Z.

Definition days_before_month (leap : bool) (month : Z) : Z :=
  let base :=
    match month with
    | 1 => 0 | 2 => 31 | 3 => 59 | 4 => 90 | 5 => 120 | 6 => 151
    | 7 => 181 | 8 => 212 | 9 => 243 | 10 => 273 | 11 => 304 | _ => 334
    end in
  if (2 <? month) && leap then base + 1 else base.

Definition days_in_month (leap : bool) (month : Z) : Z :=
  match month with
  | 2 => if leap then 29 else 28
  | 4 | 6 | 9 | 11 => 30
  | _ => 31
  end.

(** The year, month and day of an ordinal, as [datetime] computes them. *)
Definition ord2ymd (ordinal : Z) : Z * Z * Z :=
  let n := ordinal - 1 in
  let n400 := n / 146097 in
  let n := n mod 146097 in
  let n100 := n / 36524 in
  let n := n mod 36524 in
  let n4 := n / 1461 in
  let n := n mod 1461 in
  let n1 := n / 365 in
  let n := n mod 365 in
  let year := n400 * 400 + 1 + n100 * 100 + n4 * 4 + n1 in
  if (n1 =? 4) || (n100 =? 4) then (year - 1, 12, 31)
  else
    let leapyear := (n1 =? 3) && (negb (n4 =? 24) || (n100 =? 3)) in
    let month := Z.shiftr (n + 50) 5 in
    let preceding := days_before_month leapyear month in
    if n <? preceding
    then
      let month' := month - 1 in
      let preceding' := preceding - days_in_month leapyear month' in
      (year, month', n - preceding' + 1)
    else (year, month, n - preceding + 1).

Definition year (d : date) : Z := fst (fst (ord2ymd d)).
Definition month (d : date) : Z := snd (fst (ord2ymd d)).
Definition day (d : date) : Z := snd (ord2ymd d).

End PyDate.

(** ** Settings *)

Record Settings := {
  archive_page_urls_by_date : bool;
  archive_page_urls_by_id : bool;
  date_from : PyDate.date;
  date_until : PyDate.date;
  archive_url_format : string;
  go_reverse_in_archive : bool;
  min_pagenum : Z;
  max_pagenum : option Z;
  next_url_by_regex : bool;
  next_url_by_pagenum : bool;
  same_article_url_threshold : Z;
  create_corpus : bool
}.

(** ** Archive base URLs: the first half of [url_iterator] *)

(** The order of Python strings is by code point, which on UTF-8 encoded
    strings is the order of the bytes: [String.le], that is [String.leb]. *)
Global Instance flip_string_le_dec : RelDecision (flip String.le).
Proof. intros s t. unfold flip. apply _. Defined.

Global Instance flip_string_le_total : Total (flip String.le).
Proof. intros s t. unfold flip. destruct (total String.le s t); auto. Qed.

Global Instance flip_string_le_trans : Transitive (flip String.le).
Proof. intros s t u. unfold flip. intros. by etrans. Qed.

Global Instance flip_string_le_antisymm : AntiSymm (=) (flip String.le).
Proof. intros s t. unfold flip. intros. by apply (anti_symm String.le). Qed.

(** [_gen_archive_page_url_from_date] *)
Definition _gen_archive_page_url_from_date (curr_date : PyDate.date) (url_format : string) : string :=
  PyStr.replace "#day" (PyStr.format_0d 2 (PyDate.day curr_date))
    (PyStr.replace "#month" (PyStr.format_0d 2 (PyDate.month curr_date))
       (PyStr.replace "#year" (PyStr.format_0d 4 (PyDate.year curr_date)) url_format)).

(** [range(n)] over [Z]: empty for [n <= 0]. *)
Definition py_range (n : Z) : list Z := Z.of_nat <$> seq 0 (Z.to_nat n).

(** [list.sort(reverse=...)] on strings. *)
Definition sort_urls (reverse : bool) (l : list string) : list string :=
  if reverse then merge_sort (flip String.le) l else merge_sort String.le l.

(** The date-mode URLs: one per day, made unique through a set, sorted.
    The order in which [list(set(...))] lists the set is lost in the sort. *)
Definition date_mode_urls (s : Settings) : list string :=
  let generated : gset string :=
    list_to_set
      ((fun curr_day => _gen_archive_page_url_from_date (date_from s + curr_day) (archive_url_format s))
         <$> py_range (date_until s - date_from s + 1)) in
  sort_urls (go_reverse_in_archive s) (elements generated).

(** [archive_page_urls] as it stands when [url_iterator] tests it for emptiness. *)
Definition archive_page_urls (s : Settings) : list string :=
  let by_date := if archive_page_urls_by_date s then date_mode_urls s else [] in
  if archive_page_urls_by_id s && (length by_date =? 0)%nat
  then by_date ++ [archive_url_format s]
  else by_date.

Definition scenario_a : Settings := {|
  archive_page_urls_by_date := true;
  archive_page_urls_by_id := false;
  date_from := 737425;
  date_until := 737455;
  archive_url_format := "https://x/#year/#month";
  go_reverse_in_archive := false;
  min_pagenum := 1;
  max_pagenum := None;
  next_url_by_regex := false;
  next_url_by_pagenum := false;
  same_article_url_threshold := 0;
  create_corpus := true
|}.

Example ord2ymd_2020_01_01 : PyDate.ord2ymd 737425 = (2020, 1, 1).
Proof. reflexivity. Qed.

Example ord2ymd_2020_01_31 : PyDate.ord2ymd 737455 = (2020, 1, 31).
Proof. reflexivity. Qed.

Example ord2ymd_2020_12_31 : PyDate.ord2ymd 737790 = (2020, 12, 31).
Proof. reflexivity. Qed.

Example ord2ymd_2000_02_29 : PyDate.ord2ymd 730179 = (2000, 2, 29).
Proof. reflexivity. Qed.

Example strip_line : PyStr.strip ("  http://a b/ " +:+ String "010"%char "") = "http://a b/".
Proof. reflexivity. Qed.

(** A no-break space (U+00A0) before and an em space (U+2003) after. *)
Example strip_unicode_line :
  PyStr.strip (String "194"%char (String "160"%char "http://a/")
               +:+ String "226"%char (String "128"%char (String "131"%char ""))
               +:+ String "010"%char "")
  = "http://a/".
Proof. vm_compute. reflexivity. Qed.

Example scenario_a_urls : archive_page_urls scenario_a = ["https://x/2020/01"].
Proof. vm_compute. reflexivity. Qed.

(** ** Collaborators, events and the crawler state *)

Inductive Level := INFO | WARNING | ERROR.

(** The log lines of [process_urls] and [download_gathered_new_urls], by
    the text that follows the URL. *)
Inductive LogText :=
  | AlreadyDownloaded
  | DownloadFailed
  | DateNotInInterval (article_date : option PyDate.date)
  | TrueNewUrl.

Inductive Event (Html : Type) :=
  | ArchiveDownload (url : string)
  | ArticleDownload (url : string)
  | ArticleToCorpus (url : string) (html : Html)
  | Log (level : Level) (url : string) (text : LogText).

Arguments ArchiveDownload {Html} url.
Arguments ArticleDownload {Html} url.
Arguments ArticleToCorpus {Html} url html.
Arguments Log {Html} level url text.

(** The collaborators. [World] is whatever they keep between calls (the
    WARC cache, the network, the output file); the two downloaders are the
    two [WarcCachingDownloader] objects. [iter_set] is the order in which
    Python iterates over a set: some listing of its elements. *)
Record Env (World Html : Type) := {
  archive_download_url : World → string → option Html * World;
  article_download_url : World → string → option Html * World;
  extract_article_urls_from_page : Html → Settings → list string;
  extract_next_page_url : Html → Settings → option string;
  extract_article_date : Html → Settings → option PyDate.date;
  article_to_corpus : World → string → Html → World;
  iter_set : gset string → list string;
  iter_set_perm : ∀ s, iter_set s ≡ₚ elements s
}.

Arguments archive_download_url {World Html} _ _ _.
Arguments article_download_url {World Html} _ _ _.
Arguments extract_article_urls_from_page {World Html} _ _ _.
Arguments extract_next_page_url {World Html} _ _ _.
Arguments extract_article_date {World Html} _ _ _.
Arguments article_to_corpus {World Html} _ _ _ _.
Arguments iter_set {World Html} _ _.
Arguments iter_set_perm {World Html} _ _.

(** The attributes of the two crawler objects, the collaborators' world and
    the trace of what has been done so far (oldest event first). *)
Record State (World Html : Type) := {
  good_urls : gset string;
  problematic_urls : gset string;
  known_article_urls : gset string;
  good_article_urls : gset string;
  problematic_article_urls : gset string;
  _new_urls : gset string;
  world : World;
  trace : list (Event Html)
}.

Arguments good_urls {World Html} _.
Arguments problematic_urls {World Html} _.
Arguments known_article_urls {World Html} _.
Arguments good_article_urls {World Html} _.
Arguments problematic_article_urls {World Html} _.
Arguments _new_urls {World Html} _.
Arguments world {World Html} _.
Arguments trace {World Html} _.

Inductive Exception := ValueError.

(** How a run of a loop ends: normally, by an exception, or (in the model
    only) because the fuel ran out; each with the state reached. *)
Inductive Outcome (World Html : Type) :=
  | Finished (st : State World Html)
  | Raised (e : Exception) (st : State World Html)
  | OutOfFuel (st : State World Html).

Arguments Finished {World Html} st.
Arguments Raised {World Html} e st.
Arguments OutOfFuel {World Html} st.

Definition outcome_state {World Html} (o : Outcome World Html) : State World Html :=
  match o with Finished st | Raised _ st | OutOfFuel st => st end.

Definition is_finished {World Html} (o : Outcome World Html) : bool :=
  match o with Finished _ => true | _ => false end.

Section Crawler.
Context {World Html : Type}.
Variable env : Env World Html.
Variable settings : Settings.

Abbreviation St := (State World Html).

(** *** State updates *)

Definition record_event (e : Event Html) (st : St) : St :=
  {| good_urls := good_urls st; problematic_urls := problematic_urls st;
     known_article_urls := known_article_urls st;
     good_article_urls := good_article_urls st;
     problematic_article_urls := problematic_article_urls st;
     _new_urls := _new_urls st; world := world st;
     trace := trace st ++ [e] |}.

Definition set_world (w : World) (st : St) : St :=
  {| good_urls := good_urls st; problematic_urls := problematic_urls st;
     known_article_urls := known_article_urls st;
     good_article_urls := good_article_urls st;
     problematic_article_urls := problematic_article_urls st;
     _new_urls := _new_urls st; world := w; trace := trace st |}.

Definition add_good_url (url : string) (st : St) : St :=
  {| good_urls := {[url]} ∪ good_urls st; problematic_urls := problematic_urls st;
     known_article_urls := known_article_urls st;
     good_article_urls := good_article_urls st;
     problematic_article_urls := problematic_article_urls st;
     _new_urls := _new_urls st; world := world st; trace := trace st |}.

Definition add_problematic_url (url : string) (st : St) : St :=
  {| good_urls := good_urls st; problematic_urls := {[url]} ∪ problematic_urls st;
     known_article_urls := known_article_urls st;
     good_article_urls := good_article_urls st;
     problematic_article_urls := problematic_article_urls st;
     _new_urls := _new_urls st; world := world st; trace := trace st |}.

Definition add_good_article_url (url : string) (st : St) : St :=
  {| good_urls := good_urls st; problematic_urls := problematic_urls st;
     known_article_urls := known_article_urls st;
     good_article_urls := {[url]} ∪ good_article_urls st;
     problematic_article_urls := problematic_article_urls st;
     _new_urls := _new_urls st; world := world st; trace := trace st |}.

Definition add_problematic_article_url (url : string) (st : St) : St :=
  {| good_urls := good_urls st; problematic_urls := problematic_urls st;
     known_article_urls := known_article_urls st;
     good_article_urls := good_article_urls st;
     problematic_article_urls := {[url]} ∪ problematic_article_urls st;
     _new_urls := _new_urls st; world := world st; trace := trace st |}.

Definition set_new_urls (s : gset string) (st : St) : St :=
  {| good_urls := good_urls st; problematic_urls := problematic_urls st;
     known_article_urls := known_article_urls st;
     good_article_urls := good_article_urls st;
     problematic_article_urls := problematic_article_urls st;
     _new_urls := s; world := world st; trace := trace st |}.

(** [for x in l: body(x)] *)
Fixpoint for_each {A} (body : A → St → St) (l : list A) (st : St) : St :=
  match l with
  | [] => st
  | x :: l' => for_each body l' (body x st)
  end.

(** *** NewsArticleCrawler *)

(** The test of lines 224-228 and of the set comprehension of lines
    237-242: [url] is in none of the five sets. *)
Definition unclassified (st : St) (url : string) : Prop :=
  (url ∉ good_article_urls st) ∧ (url ∉ problematic_article_urls st) ∧
  (url ∉ good_urls st) ∧ (url ∉ problematic_urls st) ∧ (url ∉ known_article_urls st).

Global Instance unclassified_dec st url : Decision (unclassified st url).
Proof. unfold unclassified. apply _. Defined.

(** The body of [for extracted_url in extracted_article_urls]. *)
Definition admit_new (extracted_url : string) (st : St) : St :=
  if decide (unclassified st extracted_url)
  then set_new_urls ({[extracted_url]} ∪ _new_urls st) st
  else st.

Definition article_date_is_ok (article_date : option PyDate.date) : bool :=
  match article_date with
  | Some d => (date_from settings <=? d) && (d <=? date_until settings)
  | None => false
  end.

(** The body of [for url in it] in [process_urls]. *)
Definition process_url (url : string) (st : St) : St :=
  if decide (url ∈ good_article_urls st ∨ url ∈ problematic_article_urls st)
  then record_event (Log WARNING url AlreadyDownloaded) st
  else
    let (article_raw_html, w) := article_download_url env (world st) url in
    let st := record_event (ArticleDownload url) (set_world w st) in
    match article_raw_html with
    | None =>
        add_problematic_article_url url (record_event (Log ERROR url DownloadFailed) st)
    | Some html =>
        let st := add_good_article_url url st in
        let article_date := extract_article_date env html settings in
        let st :=
          if article_date_is_ok article_date then st
          else record_event (Log WARNING url (DateNotInInterval article_date)) st in
        let st :=
          if article_date_is_ok article_date && create_corpus settings
          then record_event (ArticleToCorpus url html)
                 (set_world (article_to_corpus env (world st) url html) st)
          else st in
        for_each admit_new (extract_article_urls_from_page env html settings) st
    end.

(** [process_urls] on an iterable that is not a generator. *)
Definition process_urls (it : list string) (st : St) : St :=
  for_each process_url it st.

(** *** NewsArchiveCrawler *)

Definition _extract_next_page_url (known : gset string) (archive_page_raw_html : Html)
    (archive_page_url_base : string) (article_urls : list string) (page_num : Z)
    (max_pagenum : option Z) (use_regex use_pagenum : bool)
    (same_article_url_threshold : Z) : option string :=
  if use_regex then extract_next_page_url env archive_page_raw_html settings
  else if use_pagenum && (0 <? Z.of_nat (length article_urls))
          && ((Z.of_nat (size known) =? 0)
              || (same_article_url_threshold
                    <? Z.of_nat (size (known ∩ list_to_set article_urls))))
          && (match max_pagenum with None => true | Some m => page_num <? m end)
  then Some (PyStr.format_concat archive_page_url_base page_num)
  else None.

(** The [while] loop of
    [_gen_article_urls_from_archive_page_url_including_subpages], driven
    by [process_urls]: the generator is lazy, so each article URL it
    yields is processed before the next archive page is downloaded. *)
Fixpoint walk_archive_pages (fuel : nat) (archive_page_url_base : string)
    (archive_page_next_page_url : option string) (page_num : Z) (st : St)
    : Outcome World Html :=
  match archive_page_next_page_url with
  | None => Finished st
  | Some page_url =>
      match fuel with
      | O => OutOfFuel st
      | S fuel' =>
          let (archive_page_raw_html, w) := archive_download_url env (world st) page_url in
          let st := record_event (ArchiveDownload page_url) (set_world w st) in
          match archive_page_raw_html with
          | Some html =>
              let st := add_good_url page_url st in
              let article_urls := extract_article_urls_from_page env html settings in
              let next :=
                _extract_next_page_url (known_article_urls st) html archive_page_url_base
                  article_urls page_num
                  (max_pagenum settings) (next_url_by_regex settings)
                  (next_url_by_pagenum settings) (same_article_url_threshold settings) in
              walk_archive_pages fuel' archive_page_url_base next (page_num + 1)
                (process_urls article_urls st)
          | None =>
              walk_archive_pages fuel' archive_page_url_base None (page_num + 1)
                (add_problematic_url page_url st)
          end
      end
  end.

Definition _gen_article_urls_from_archive_page_url_including_subpages
    (fuel : nat) (archive_page_url_base : string) (st : St) : Outcome World Html :=
  walk_archive_pages fuel archive_page_url_base (Some archive_page_url_base)
    (min_pagenum settings) st.

(** [for archive_page_url in archive_page_urls: yield from ...] *)
Fixpoint walk_archives (fuel : nat) (archive_page_urls : list string) (st : St)
    : Outcome World Html :=
  match archive_page_urls with
  | [] => Finished st
  | archive_page_url :: rest =>
      match _gen_article_urls_from_archive_page_url_including_subpages fuel archive_page_url st with
      | Finished st' => walk_archives fuel rest st'
      | o => o
      end
  end.

(** [process_urls(self._archive_downloader.url_iterator())] *)
Definition url_iterator (fuel : nat) (st : St) : Outcome World Html :=
  let urls := archive_page_urls settings in
  if (length urls =? 0)%nat then Raised ValueError st
  else walk_archives fuel urls st.

(** The set comprehension of [download_gathered_new_urls]. *)
Definition recheck_new_urls (st : St) : St :=
  set_new_urls (filter (unclassified st) (_new_urls st)) st.

(** The [while len(self._new_urls) > 0] loop. *)
Fixpoint drain_new_urls (fuel : nat) (st : St) : Outcome World Html :=
  if decide (0 < Z.of_nat (size (_new_urls st))) then
    match fuel with
    | O => OutOfFuel st
    | S fuel' =>
        let new_urls := iter_set env (_new_urls st) in
        let st := for_each (fun url => record_event (Log ERROR url TrueNewUrl)) new_urls st in
        let st := set_new_urls ∅ st in
        drain_new_urls fuel' (process_urls new_urls st)
    end
  else Finished st.

Definition download_gathered_new_urls (fuel : nat) (st : St) : Outcome World Html :=
  drain_new_urls fuel (recheck_new_urls st).

Definition download_and_extract_all_articles (fuel : nat) (st : St) : Outcome World Html :=
  match url_iterator fuel st with
  | Finished st' => download_gathered_new_urls fuel st'
  | o => o
  end.

End Crawler.

(** The state the two constructors leave. *)
Definition initial_state {World Html} (known : gset string) (w : World) : State World Html :=
  {| good_urls := ∅; problematic_urls := ∅; known_article_urls := known;
     good_article_urls := ∅; problematic_article_urls := ∅; _new_urls := ∅;
     world := w; trace := [] |}.

(** ** A small site to run the crawlers on *)

Module Site.

(** What the extractors find in a page. *)
Record Page := {
  links : list string;
  next_page : option string;
  published : option PyDate.date
}.

Fixpoint lookup_page (pages : list (string * Page)) (url : string) : option Page :=
  match pages with
  | [] => None
  | (u, p) :: rest => if String.eqb u url then Some p else lookup_page rest url
  end.

(** A site whose pages never change: the downloaders keep no state. *)
Definition static (pages : list (string * Page)) : Env unit Page := {|
  archive_download_url := fun w url => (lookup_page pages url, w);
  article_download_url := fun w url => (lookup_page pages url, w);
  extract_article_urls_from_page := fun html _ => links html;
  extract_next_page_url := fun html _ => next_page html;
  extract_article_date := fun html _ => published html;
  article_to_corpus := fun w _ _ => w;
  iter_set := elements;
  iter_set_perm := fun s => reflexivity (elements s)
|}.

(** A site where every URL gives the same page. *)
Definition uniform (page : Page) : Env unit Page := {|
  archive_download_url := fun w url => (Some page, w);
  article_download_url := fun w url => (Some page, w);
  extract_article_urls_from_page := fun html _ => links html;
  extract_next_page_url := fun html _ => next_page html;
  extract_article_date := fun html _ => published html;
  article_to_corpus := fun w _ _ => w;
  iter_set := elements;
  iter_set_perm := fun s => reflexivity (elements s)
|}.

End Site.

(** ** Lemmas on the article crawler *)

Section CrawlerFacts.
Context {World Html : Type}.
Variable env : Env World Html.
Variable settings : Settings.

Abbreviation St := (State World Html).

Lemma set_new_urls_same (st : St) : set_new_urls (_new_urls st) st = st.
Proof. by destruct st. Qed.

Lemma set_new_urls_twice (st : St) s s' :
  set_new_urls s (set_new_urls s' st) = set_new_urls s st.
Proof. done. Qed.

Lemma unclassified_set_new_urls (st : St) s url :
  unclassified (set_new_urls s st) url ↔ unclassified st url.
Proof. done. Qed.

Lemma admit_new_spec (url : string) (st : St) :
  admit_new url st =
  set_new_urls (if decide (unclassified st url) then {[url]} ∪ _new_urls st else _new_urls st) st.
Proof. unfold admit_new. case_decide; [done | by rewrite set_new_urls_same]. Qed.

(** The whole [for extracted_url in extracted_article_urls] loop: the
    five sets do not change while it runs, so the test is that of the
    state the loop starts in. *)
Lemma for_each_admit_new (l : list string) (st : St) :
  for_each admit_new l st =
  set_new_urls (_new_urls st ∪ filter (unclassified st) (list_to_set l)) st.
Proof.
  revert st. induction l as [|u l IH]; intros st; simpl.
  - rewrite <- (set_new_urls_same st) at 1. f_equal. set_solver.
  - rewrite IH, admit_new_spec, set_new_urls_twice. f_equal.
    apply set_eq. intros x.
    rewrite !elem_of_union, !elem_of_filter, elem_of_union, !elem_of_list_to_set.
    rewrite elem_of_singleton.
    change (unclassified (set_new_urls _ st) x) with (unclassified st x).
    change (_new_urls (set_new_urls ?s st)) with s.
    case_decide as Hu; rewrite ?elem_of_union, ?elem_of_singleton; naive_solver.
Qed.

(** What [process_url] does, case by case. *)
Definition date_checked (url : string) (html : Html) (st : St) : St :=
  let article_date := extract_article_date env html settings in
  if article_date_is_ok settings article_date then st
  else record_event (Log WARNING url (DateNotInInterval article_date)) st.

Definition converted (url : string) (html : Html) (st : St) : St :=
  if article_date_is_ok settings (extract_article_date env html settings)
     && create_corpus settings
  then record_event (ArticleToCorpus url html)
         (set_world (article_to_corpus env (world st) url html) st)
  else st.

Lemma process_url_duplicate url (st : St) :
  url ∈ good_article_urls st ∨ url ∈ problematic_article_urls st →
  process_url env settings url st = record_event (Log WARNING url AlreadyDownloaded) st.
Proof. intros H. unfold process_url. by rewrite decide_True. Qed.

Lemma process_url_failed url (st : St) w :
  url ∉ good_article_urls st → url ∉ problematic_article_urls st →
  article_download_url env (world st) url = (None, w) →
  process_url env settings url st =
  add_problematic_article_url url
    (record_event (Log ERROR url DownloadFailed)
       (record_event (ArticleDownload url) (set_world w st))).
Proof.
  intros H1 H2 Hd. unfold process_url.
  rewrite decide_False by (intros [?|?]; done). by rewrite Hd.
Qed.

Lemma process_url_downloaded url (st : St) html w :
  url ∉ good_article_urls st → url ∉ problematic_article_urls st →
  article_download_url env (world st) url = (Some html, w) →
  process_url env settings url st =
  for_each admit_new (extract_article_urls_from_page env html settings)
    (converted url html
       (date_checked url html
          (add_good_article_url url
             (record_event (ArticleDownload url) (set_world w st))))).
Proof.
  intros H1 H2 Hd. unfold process_url.
  rewrite decide_False by (intros [?|?]; done). rewrite Hd.
  unfold converted, date_checked. simpl.
  by destruct (article_date_is_ok _ _).
Qed.

(** The three cases are all there is. *)
Lemma process_url_cases url (st : St) (P : St → Prop) :
  (url ∈ good_article_urls st ∨ url ∈ problematic_article_urls st →
   P (record_event (Log WARNING url AlreadyDownloaded) st)) →
  (∀ w, url ∉ good_article_urls st → url ∉ problematic_article_urls st →
        article_download_url env (world st) url = (None, w) →
        P (add_problematic_article_url url
             (record_event (Log ERROR url DownloadFailed)
                (record_event (ArticleDownload url) (set_world w st))))) →
  (∀ html w, url ∉ good_article_urls st → url ∉ problematic_article_urls st →
        article_download_url env (world st) url = (Some html, w) →
        P (for_each admit_new (extract_article_urls_from_page env html settings)
             (converted url html
                (date_checked url html
                   (add_good_article_url url
                      (record_event (ArticleDownload url) (set_world w st))))))) →
  P (process_url env settings url st).
Proof.
  intros Hdup Hfail Hok.
  destruct (decide (url ∈ good_article_urls st ∨ url ∈ problematic_article_urls st)) as [Hd|Hd].
  - rewrite process_url_duplicate by done. auto.
  - assert (url ∉ good_article_urls st) by tauto.
    assert (url ∉ problematic_article_urls st) by tauto.
    destruct (article_download_url env (world st) url) as [[html|] w] eqn:E.
    + erewrite process_url_downloaded by done. auto.
    + erewrite process_url_failed by done. auto.
Qed.

End CrawlerFacts.

(** ** Invariants *)

Section ArticleInvariant.
Context {World Html : Type}.
Variable env : Env World Html.
Variable settings : Settings.
Variable P : State World Html → Prop.

(** A property kept by each elementary update of the article crawler... *)
Hypothesis keep_log : ∀ level url text st, P st → P (record_event (Log level url text) st).
Hypothesis keep_new_urls : ∀ s st, P st → s ⊆ _new_urls st → P (set_new_urls s st).
Hypothesis keep_admit : ∀ url st, P st → P (admit_new url st).
Hypothesis keep_converted :
  ∀ url html st, P st →
    article_date_is_ok settings (extract_article_date env html settings) = true →
    P (record_event (ArticleToCorpus url html)
         (set_world (article_to_corpus env (world st) url html) st)).
Hypothesis keep_article_good :
  ∀ url html w st, P st →
    url ∉ good_article_urls st → url ∉ problematic_article_urls st →
    article_download_url env (world st) url = (Some html, w) →
    P (add_good_article_url url (record_event (ArticleDownload url) (set_world w st))).
Hypothesis keep_article_problematic :
  ∀ url w st, P st →
    url ∉ good_article_urls st → url ∉ problematic_article_urls st →
    article_download_url env (world st) url = (None, w) →
    P (add_problematic_article_url url
         (record_event (Log ERROR url DownloadFailed)
            (record_event (ArticleDownload url) (set_world w st)))).

(** ... is kept by [process_urls] and by the loop on the new URLs. *)
Lemma for_each_keeps {A} (body : A → State World Html → State World Html) l st :
  (∀ x st, P st → P (body x st)) → P st → P (for_each body l st).
Proof. intros Hb. revert st. induction l; simpl; auto. Qed.

Lemma process_url_keeps url st : P st → P (process_url env settings url st).
Proof.
  intros HP. apply process_url_cases; auto.
  intros html w H1 H2 Hd.
  apply for_each_keeps; [auto|].
  unfold converted, date_checked.
  destruct (article_date_is_ok _ _) eqn:Hok; simpl.
  - destruct (create_corpus settings); eauto.
  - eauto.
Qed.

Lemma process_urls_keeps it st : P st → P (process_urls env settings it st).
Proof. apply for_each_keeps. intros; by apply process_url_keeps. Qed.

Lemma drain_new_urls_keeps fuel st :
  P st → P (outcome_state (drain_new_urls env settings fuel st)).
Proof.
  revert st. induction fuel as [|fuel IH]; intros st HP; simpl.
  - by case_decide.
  - case_decide; [|done].
    apply IH, process_urls_keeps, keep_new_urls; [|set_solver].
    apply for_each_keeps; auto.
Qed.

Lemma download_gathered_new_urls_keeps fuel st :
  P st → P (outcome_state (download_gathered_new_urls env settings fuel st)).
Proof.
  intros HP. apply drain_new_urls_keeps, keep_new_urls; [done|].
  intros x. rewrite elem_of_filter. tauto.
Qed.

End ArticleInvariant.

Section RunInvariant.
Context {World Html : Type}.
Variable env : Env World Html.
Variable settings : Settings.
Variable P : State World Html → Prop.

(** A property kept by the updates of both crawlers... *)
Hypothesis keep_log : ∀ level url text st, P st → P (record_event (Log level url text) st).
Hypothesis keep_new_urls : ∀ s st, P st → s ⊆ _new_urls st → P (set_new_urls s st).
Hypothesis keep_admit : ∀ url st, P st → P (admit_new url st).
Hypothesis keep_converted :
  ∀ url html st, P st →
    article_date_is_ok settings (extract_article_date env html settings) = true →
    P (record_event (ArticleToCorpus url html)
         (set_world (article_to_corpus env (world st) url html) st)).
Hypothesis keep_article_good :
  ∀ url html w st, P st →
    url ∉ good_article_urls st → url ∉ problematic_article_urls st →
    article_download_url env (world st) url = (Some html, w) →
    P (add_good_article_url url (record_event (ArticleDownload url) (set_world w st))).
Hypothesis keep_article_problematic :
  ∀ url w st, P st →
    url ∉ good_article_urls st → url ∉ problematic_article_urls st →
    article_download_url env (world st) url = (None, w) →
    P (add_problematic_article_url url
         (record_event (Log ERROR url DownloadFailed)
            (record_event (ArticleDownload url) (set_world w st)))).
Hypothesis keep_archive_good :
  ∀ url html w st, P st →
    archive_download_url env (world st) url = (Some html, w) →
    P (add_good_url url (record_event (ArchiveDownload url) (set_world w st))).
Hypothesis keep_archive_problematic :
  ∀ url w st, P st →
    archive_download_url env (world st) url = (None, w) →
    P (add_problematic_url url (record_event (ArchiveDownload url) (set_world w st))).

Local Lemma articles_keep it st : P st → P (process_urls env settings it st).
Proof. by apply process_urls_keeps. Qed.

(** ... is kept by the archive walk and by the whole run. *)
Lemma walk_archive_pages_keeps fuel base next page_num st :
  P st → P (outcome_state (walk_archive_pages env settings fuel base next page_num st)).
Proof.
  revert next page_num st. induction fuel as [|fuel IH]; intros [url|] page_num st HP;
    simpl; try done.
  destruct (archive_download_url env (world st) url) as [[html|] w] eqn:Hd.
  - apply IH, articles_keep. eauto.
  - destruct fuel; simpl; eauto.
Qed.

Lemma walk_archives_keeps fuel urls st :
  P st → P (outcome_state (walk_archives env settings fuel urls st)).
Proof.
  revert st. induction urls as [|url urls IH]; intros st HP; simpl; [done|].
  pose proof (walk_archive_pages_keeps fuel url (Some url) (min_pagenum settings) st HP) as H.
  unfold _gen_article_urls_from_archive_page_url_including_subpages.
  destruct (walk_archive_pages _ _ _ _ _ _ _); simpl in *; auto.
Qed.

Lemma url_iterator_keeps fuel st :
  P st → P (outcome_state (url_iterator env settings fuel st)).
Proof.
  intros HP. unfold url_iterator.
  destruct (_ =? _)%nat; simpl; [done|]. by apply walk_archives_keeps.
Qed.

Lemma download_and_extract_all_articles_keeps fuel st :
  P st → P (outcome_state (download_and_extract_all_articles env settings fuel st)).
Proof.
  intros HP. unfold download_and_extract_all_articles.
  pose proof (url_iterator_keeps fuel st HP) as H.
  destruct (url_iterator _ _ _ _); simpl in *; auto.
  by apply download_gathered_new_urls_keeps.
Qed.

End RunInvariant.

(** ** The frontier: admission of new URLs *)

Section KnownUrls.
Context {World Html : Type}.
Variable env : Env World Html.
Variable settings : Settings.
Variable known : gset string.

(** The known article URLs stay as loaded, and none of them is a new URL. *)
Definition known_kept (st : State World Html) : Prop :=
  known_article_urls st = known ∧ _new_urls st ## known.

Lemma known_kept_admit url st : known_kept st → known_kept (admit_new url st).
Proof.
  unfold known_kept. rewrite admit_new_spec. simpl. intros [Hk Hd]. split; [done|].
  case_decide as Hu; [|done].
  destruct Hu as (_ & _ & _ & _ & Hu). rewrite Hk in Hu. set_solver.
Qed.

Lemma known_kept_run fuel st :
  known_kept st →
  known_kept (outcome_state (download_and_extract_all_articles env settings fuel st)).
Proof.
  apply download_and_extract_all_articles_keeps; clear st; unfold known_kept; simpl;
    try solve [intros; simpl; tauto].
  - intros s st [Hk Hd] Hs. split; [done|]. set_solver.
  - apply known_kept_admit.
Qed.

Lemma known_kept_url_iterator fuel st :
  known_kept st → known_kept (outcome_state (url_iterator env settings fuel st)).
Proof.
  apply url_iterator_keeps; clear st; unfold known_kept; simpl;
    try solve [intros; simpl; tauto].
  apply known_kept_admit.
Qed.

End KnownUrls.

Lemma recheck_new_urls_spec {World Html} (st : State World Html) url :
  url ∈ _new_urls (recheck_new_urls st) ↔ url ∈ _new_urls st ∧ unclassified st url.
Proof. unfold recheck_new_urls. simpl. rewrite elem_of_filter. tauto. Qed.

(** A site for the interplay of the archive walk and the frontier: the
    archive page [A] lists the article [a1] and has [B] as its next page;
    the article [a1] links to [B]. *)
Definition by_id_regex (base : string) : Settings := {|
  archive_page_urls_by_date := false;
  archive_page_urls_by_id := true;
  date_from := 10;
  date_until := 20;
  archive_url_format := base;
  go_reverse_in_archive := false;
  min_pagenum := 1;
  max_pagenum := None;
  next_url_by_regex := true;
  next_url_by_pagenum := false;
  same_article_url_threshold := 0;
  create_corpus := true
|}.

Definition site_linked_archive : Env unit Site.Page :=
  Site.static
    [ ("A", {| Site.links := ["a1"]; Site.next_page := Some "B"; Site.published := None |});
      ("B", {| Site.links := []; Site.next_page := None; Site.published := None |});
      ("a1", {| Site.links := ["B"]; Site.next_page := None; Site.published := Some 15 |}) ].

Example site_linked_archive_trace :
  trace (outcome_state (url_iterator site_linked_archive (by_id_regex "A") 2 (initial_state ∅ tt)))
  = [ ArchiveDownload "A"; ArticleDownload "a1";
      ArticleToCorpus "a1"
        {| Site.links := ["B"]; Site.next_page := None; Site.published := Some 15 |};
      ArchiveDownload "B" ].
Proof. vm_compute. reflexivity. Qed.

(** C1 as stated fails for [archiveGoodURLs]: when the archive walk of
    [site_linked_archive] is over and [download_gathered_new_urls] is about
    to be called, the URL [B] is a good archive URL and a new URL at once:
    it was admitted while [a1] was processed, before page [B] was reached. *)
Lemma C1_counterexample :
  let st := outcome_state
              (url_iterator site_linked_archive (by_id_regex "A") 2 (initial_state ∅ tt)) in
  "B" ∈ good_urls st ∧ "B" ∈ _new_urls st.
Proof. split; apply (bool_decide_unpack _); vm_compute; exact I. Qed.

(** ** The frontier: draining the new URLs *)

(** The drain loop as the specification words it: every iteration takes a
    snapshot of the new URLs, clears them, filters the snapshot against the
    five sets and processes what is left. The log lines on the snapshot
    are those of the code. *)
Fixpoint drain_as_specified {World Html} (env : Env World Html) (settings : Settings)
    (fuel : nat) (st : State World Html) : Outcome World Html :=
  if decide (0 < Z.of_nat (size (_new_urls st))) then
    match fuel with
    | O => OutOfFuel st
    | S fuel' =>
        let snapshot := _new_urls st in
        let st := for_each (fun url => record_event (Log ERROR url TrueNewUrl))
                    (iter_set env snapshot) st in
        let st := set_new_urls ∅ st in
        let survivors := filter (unclassified st) snapshot in
        drain_as_specified env settings fuel' (process_urls env settings (iter_set env survivors) st)
    end
  else Finished st.

(** A site with two articles off the archive that link to each other: the
    archive page [A] lists [a1], which links to [x] and [y]. *)
Definition site_cross_linked : Env unit Site.Page :=
  Site.static
    [ ("A", {| Site.links := ["a1"]; Site.next_page := None; Site.published := None |});
      ("a1", {| Site.links := ["x"; "y"]; Site.next_page := None; Site.published := None |});
      ("x", {| Site.links := ["y"]; Site.next_page := None; Site.published := None |});
      ("y", {| Site.links := ["x"]; Site.next_page := None; Site.published := None |}) ].

Definition after_archive_cross_linked : State unit Site.Page :=
  outcome_state (url_iterator site_cross_linked (by_id_regex "A") 1 (initial_state ∅ tt)).

Lemma size_zero_iff_empty (X : gset string) : size X = 0%nat ↔ X = ∅.
Proof. rewrite size_empty_iff. apply leibniz_equiv_iff. Qed.

Section DrainFacts.
Context {World Html : Type}.
Variable env : Env World Html.
Variable settings : Settings.

Lemma drain_new_urls_empty fuel (st : State World Html) :
  _new_urls st = ∅ → drain_new_urls env settings fuel st = Finished st.
Proof.
  intros H. destruct fuel; simpl; rewrite H, size_empty; by rewrite decide_False by lia.
Qed.

Lemma drain_new_urls_step fuel (st : State World Html) :
  _new_urls st ≠ ∅ →
  drain_new_urls env settings (S fuel) st =
  drain_new_urls env settings fuel
    (process_urls env settings (iter_set env (_new_urls st))
       (set_new_urls ∅
          (for_each (fun url => record_event (Log ERROR url TrueNewUrl))
             (iter_set env (_new_urls st)) st))).
Proof.
  intros H. simpl. rewrite decide_True; [done|].
  rewrite <- size_zero_iff_empty in H. lia.
Qed.

Lemma drain_new_urls_finished fuel (st st' : State World Html) :
  drain_new_urls env settings fuel st = Finished st' → _new_urls st' = ∅.
Proof.
  revert st. induction fuel as [|fuel IH]; intros st; simpl.
  - case_decide as Hs; [done|]. intros [= <-].
    apply size_zero_iff_empty. lia.
  - case_decide as Hs; [apply IH|]. intros [= <-].
    apply size_zero_iff_empty. lia.
Qed.

Lemma recheck_new_urls_empty (st : State World Html) :
  _new_urls st = ∅ → recheck_new_urls st = st.
Proof.
  intros H. destruct st; simpl in *; subst.
  unfold recheck_new_urls, set_new_urls; simpl. f_equal.
Qed.

(** While the new URLs are drained the archive crawler is at rest: its
    three sets stay as they are, and a new URL is in none of them. *)
Definition archive_side_kept (good problematic known : gset string)
    (st : State World Html) : Prop :=
  good_urls st = good ∧ problematic_urls st = problematic ∧
  known_article_urls st = known ∧
  ∀ url, url ∈ _new_urls st → (url ∉ good) ∧ (url ∉ problematic) ∧ (url ∉ known).

Lemma archive_side_kept_drain good problematic known fuel st :
  archive_side_kept good problematic known st →
  archive_side_kept good problematic known
    (outcome_state (drain_new_urls env settings fuel st)).
Proof.
  apply drain_new_urls_keeps; clear st; unfold archive_side_kept; simpl;
    try solve [intros; simpl; tauto].
  - intros s st (-> & -> & -> & H) Hs. repeat split; try done; apply H; set_solver.
  - intros url st (<- & <- & <- & H). rewrite admit_new_spec. simpl.
    repeat split; try done; revert H0; case_decide as Hu; try apply H;
      rewrite elem_of_union, elem_of_singleton; (intros [->|?]; [|by apply H]);
      unfold unclassified in Hu; tauto.
Qed.

End DrainFacts.

(** C1, amended: an extracted link is added to [_new_urls] exactly when it
    is in none of the five sets at that moment (so also over the whole loop
    on the links of an article; a link that is a good archive URL when it
    is found is not added), the known article URLs are never written, and
    no known article URL is ever a new URL, in the state any run has
    reached, whether it is over or not. A new URL can be a good archive
    URL: [_new_urls] loses no member while the archive is walked, so a URL
    that becomes a good archive URL only after its admission stays a new
    URL. The recheck of [download_gathered_new_urls] keeps exactly the new
    URLs that are in none of the five sets at that moment; from then on,
    at the start of every iteration of the loop on the new URLs and when
    the loop is over, no new URL is a good archive URL, a problematic
    archive URL or a known article URL. It can be a good article URL by
    then, as on [site_cross_linked] after one iteration. *)
Theorem C1_admission_iff_unclassified :
  ∀ {World Html : Type} (env : Env World Html) (settings : Settings),
    (∀ (st : State World Html) url,
        admit_new url st =
        set_new_urls
          (if decide ((url ∉ good_article_urls st) ∧ (url ∉ problematic_article_urls st) ∧
                      (url ∉ good_urls st) ∧ (url ∉ problematic_urls st) ∧
                      (url ∉ known_article_urls st))
           then {[url]} ∪ _new_urls st else _new_urls st) st) ∧
    (∀ (st : State World Html) links url,
        url ∈ _new_urls (for_each admit_new links st) ↔
        url ∈ _new_urls st ∨ (url ∈ links ∧ unclassified st url)) ∧
    (∀ (st : State World Html) url, url ∈ good_urls st → admit_new url st = st) ∧
    (∀ fuel known w,
        let st := outcome_state (url_iterator env settings fuel (initial_state known w)) in
        known_article_urls st = known ∧ _new_urls st ∩ known = ∅) ∧
    (∀ fuel known w,
        let st := outcome_state
                    (download_and_extract_all_articles env settings fuel (initial_state known w)) in
        known_article_urls st = known ∧ _new_urls st ∩ known = ∅) ∧
    (∀ fuel (st : State World Html),
        _new_urls st ⊆ _new_urls (outcome_state (url_iterator env settings fuel st))) ∧
    (∀ (st : State World Html) url,
        url ∈ _new_urls (recheck_new_urls st) ↔ url ∈ _new_urls st ∧ unclassified st url) ∧
    (∀ fuel (st : State World Html),
        let st' := outcome_state (download_gathered_new_urls env settings fuel st) in
        ∀ url, url ∈ _new_urls st' →
               (url ∉ good_urls st') ∧ (url ∉ problematic_urls st') ∧
               (url ∉ known_article_urls st')) ∧
    (let st' := outcome_state
                  (download_gathered_new_urls site_cross_linked (by_id_regex "A") 1
                     after_archive_cross_linked) in
     "x" ∈ _new_urls st' ∧ "x" ∈ good_article_urls st').
Proof.
  intros World Html env settings.
  split; [|split; [|split; [|split; [|split; [|split; [|split; [|split]]]]]]].
  - intros st url. rewrite admit_new_spec. unfold unclassified. by repeat case_decide.
  - intros st links url. rewrite for_each_admit_new. simpl.
    rewrite elem_of_union, elem_of_filter, elem_of_list_to_set. tauto.
  - intros st url Hg. unfold admit_new. rewrite decide_False; [done|].
    unfold unclassified. tauto.
  - intros fuel known w st.
    destruct (known_kept_url_iterator env settings known fuel (initial_state known w)) as [Hk Hd].
    { split; [done|]. simpl. set_solver. }
    subst st. split; [exact Hk|]. set_solver.
  - intros fuel known w st.
    destruct (known_kept_run env settings known fuel (initial_state known w)) as [Hk Hd].
    { split; [done|]. simpl. set_solver. }
    subst st. split; [exact Hk|]. set_solver.
  - intros fuel st.
    apply (url_iterator_keeps env settings (λ s, _new_urls st ⊆ _new_urls s)); simpl;
      try done.
    intros url s H. rewrite admit_new_spec. simpl. case_decide; set_solver.
  - intros st url. apply recheck_new_urls_spec.
  - intros fuel st st'.
    destruct (archive_side_kept_drain env settings (good_urls st) (problematic_urls st)
                (known_article_urls st) fuel (recheck_new_urls st)) as (Hg & Hp & Hk & Hn).
    { repeat split; try done; apply recheck_new_urls_spec in H;
        destruct H as (_ & _ & _ & ? & ? & ?); done. }
    subst st'. unfold download_gathered_new_urls. rewrite Hg, Hp, Hk. done.
  - split; apply (bool_decide_unpack _); vm_compute; exact I.
Qed.

(** C2 as stated fails: on [site_cross_linked] the code and the loop of the
    specification part ways in the second iteration. There the new URLs
    are [{x}], and [x] is a good article URL by then: the code hands it to
    [process_urls], whose duplicate guard logs it; a loop that filtered
    again would have dropped it. *)
Lemma C2_counterexample :
  trace (outcome_state
           (download_gathered_new_urls site_cross_linked (by_id_regex "A") 3
              after_archive_cross_linked))
  = (trace (outcome_state
              (drain_as_specified site_cross_linked (by_id_regex "A") 3
                 after_archive_cross_linked))
     ++ [Log WARNING "x" AlreadyDownloaded])%list
  ∧ download_gathered_new_urls site_cross_linked (by_id_regex "A") 3 after_archive_cross_linked
    ≠ drain_as_specified site_cross_linked (by_id_regex "A") 3 after_archive_cross_linked.
Proof.
  assert (trace (outcome_state
           (download_gathered_new_urls site_cross_linked (by_id_regex "A") 3
              after_archive_cross_linked))
  = (trace (outcome_state
              (drain_as_specified site_cross_linked (by_id_regex "A") 3
                 after_archive_cross_linked))
     ++ [Log WARNING "x" AlreadyDownloaded])%list) as H by (vm_compute; reflexivity).
  split; [exact H|].
  intros E. rewrite E in H.
  apply (f_equal length) in H. rewrite length_app in H. cbn [length] in H. lia.
Qed.

(** C2, amended: the new URLs are filtered against the five sets once,
    before the loop. The loop ends as soon as there is no new URL at the
    start of an iteration; otherwise the iteration logs the new URLs,
    clears them and hands all of them to [process_urls], which downloads
    nothing for one that is a good or problematic article URL by then.
    At the start of every iteration the new URLs are in none of the good
    archive URLs, the problematic archive URLs and the known article URLs,
    which do not change while the loop runs. *)
Theorem C2_recheck_once_then_drain :
  ∀ {World Html : Type} (env : Env World Html) (settings : Settings),
    (∀ fuel (st : State World Html),
        download_gathered_new_urls env settings fuel st =
        drain_new_urls env settings fuel (recheck_new_urls st)) ∧
    (∀ (st : State World Html),
        recheck_new_urls st = set_new_urls (_new_urls (recheck_new_urls st)) st ∧
        ∀ url, url ∈ _new_urls (recheck_new_urls st) ↔ url ∈ _new_urls st ∧ unclassified st url) ∧
    (∀ fuel (st : State World Html),
        _new_urls st = ∅ → drain_new_urls env settings fuel st = Finished st) ∧
    (∀ fuel (st : State World Html),
        _new_urls st ≠ ∅ →
        drain_new_urls env settings (S fuel) st =
        drain_new_urls env settings fuel
          (process_urls env settings (iter_set env (_new_urls st))
             (set_new_urls ∅
                (for_each (fun url => record_event (Log ERROR url TrueNewUrl))
                   (iter_set env (_new_urls st)) st)))) ∧
    (∀ url (st : State World Html),
        url ∈ good_article_urls st ∨ url ∈ problematic_article_urls st →
        process_url env settings url st = record_event (Log WARNING url AlreadyDownloaded) st) ∧
    (∀ fuel (st st' : State World Html),
        download_gathered_new_urls env settings fuel st = Finished st' → _new_urls st' = ∅) ∧
    (∀ fuel (st : State World Html),
        let st' := outcome_state (download_gathered_new_urls env settings fuel st) in
        good_urls st' = good_urls st ∧ problematic_urls st' = problematic_urls st ∧
        known_article_urls st' = known_article_urls st ∧
        ∀ url, url ∈ _new_urls st' →
               (url ∉ good_urls st') ∧ (url ∉ problematic_urls st') ∧
               (url ∉ known_article_urls st')).
Proof.
  intros World Html env settings.
  split; [done|]. split; [|split; [|split; [|split; [|split]]]].
  - intros st. split; [done|]. intros url. apply recheck_new_urls_spec.
  - apply drain_new_urls_empty.
  - apply drain_new_urls_step.
  - intros url st. apply process_url_duplicate.
  - intros fuel st st'. apply drain_new_urls_finished.
  - intros fuel st st'.
    destruct (archive_side_kept_drain env settings (good_urls st) (problematic_urls st)
                (known_article_urls st) fuel (recheck_new_urls st)) as (Hg & Hp & Hk & Hn).
    { repeat split; try done; apply recheck_new_urls_spec in H;
        destruct H as (_ & _ & _ & ? & ? & ?); done. }
    subst st'. unfold download_gathered_new_urls. rewrite Hg, Hp, Hk. done.
Qed.

(** C9: when there is no new URL, [download_gathered_new_urls] ends at once
    in the state it was called in: every set, the collaborators' world and
    the trace (so the downloads) are as before. This makes it idempotent:
    where one call has ended, a second one changes nothing. *)
Theorem C9_drain_empty_is_noop :
  ∀ {World Html : Type} (env : Env World Html) (settings : Settings)
    fuel (st : State World Html),
    (_new_urls st = ∅ → download_gathered_new_urls env settings fuel st = Finished st) ∧
    (∀ fuel' st',
        download_gathered_new_urls env settings fuel st = Finished st' →
        download_gathered_new_urls env settings fuel' st' = Finished st').
Proof.
  intros World Html env settings fuel st.
  assert (∀ f (s : State World Html),
            _new_urls s = ∅ → download_gathered_new_urls env settings f s = Finished s) as E.
  { intros f s H. unfold download_gathered_new_urls.
    rewrite recheck_new_urls_empty by done. by apply drain_new_urls_empty. }
  split; [apply E|].
  intros fuel' st' H. apply E.
  unfold download_gathered_new_urls in H. by apply drain_new_urls_finished in H.
Qed.

Lemma C9_witness :
  _new_urls (initial_state (World := unit) (Html := Site.Page) ∅ tt) = ∅ ∧
  download_gathered_new_urls site_cross_linked (by_id_regex "A") 0 (initial_state ∅ tt)
  = Finished (initial_state ∅ tt).
Proof.
  split; [reflexivity|].
  apply (proj1 (C9_drain_empty_is_noop site_cross_linked (by_id_regex "A") 0
                  (initial_state ∅ tt))).
  reflexivity.
Defined.

(** ** The archive walk *)

Lemma pretty_N_go_nonempty x s : s ≠ "" → pretty_N_go x s ≠ "".
Proof.
  revert s. induction (N.lt_wf_0 x) as [x _ IH]; intros s Hs.
  destruct (decide (x = 0%N)) as [->|Hx].
  - by rewrite pretty_N_go_0.
  - rewrite pretty_N_go_step by lia. apply IH; [|done].
    apply N.div_lt; lia.
Qed.

Lemma pretty_Z_nonempty (n : Z) : pretty n ≠ "".
Proof.
  destruct n as [|p|p]; unfold pretty, pretty_Z; [done| |done].
  unfold pretty, pretty_positive, pretty, pretty_N. rewrite decide_False by done.
  rewrite pretty_N_go_step by lia. by apply pretty_N_go_nonempty.
Qed.

Lemma format_concat_inj base : Inj (=) (=) (PyStr.format_concat base).
Proof.
  intros m n H. unfold PyStr.format_concat in H.
  by apply (inj (String.app base)), (inj pretty) in H.
Qed.

Lemma string_app_empty_r s : s +:+ "" = s.
Proof.
  induction s as [|a s IH]; [reflexivity|].
  change (String a (s +:+ "") = String a s). by rewrite IH.
Qed.

Lemma format_concat_ne_base base n : PyStr.format_concat base n ≠ base.
Proof.
  unfold PyStr.format_concat. intros H.
  assert (base +:+ pretty n = base +:+ "") as H' by (by rewrite string_app_empty_r).
  apply (inj (String.app base)) in H'. by apply pretty_Z_nonempty in H'.
Qed.

(** The archive page URLs downloaded, in order. *)
Fixpoint archive_downloads {Html} (tr : list (Event Html)) : list string :=
  match tr with
  | [] => []
  | ArchiveDownload url :: tr' => url :: archive_downloads tr'
  | _ :: tr' => archive_downloads tr'
  end.

Lemma archive_downloads_app {Html} (tr1 tr2 : list (Event Html)) :
  archive_downloads (tr1 ++ tr2) = archive_downloads tr1 ++ archive_downloads tr2.
Proof. induction tr1 as [|[] tr1 IH]; simpl; by rewrite ?IH. Qed.

(** The pages the page-number rule makes up: [base + str(page_num)], ... *)
Definition numbered_pages (base : string) (page_num : Z) (n : nat) : list string :=
  (fun i => PyStr.format_concat base (page_num + Z.of_nat i)) <$> seq 0 n.

Lemma numbered_pages_S base page_num n :
  numbered_pages base page_num (S n) =
  PyStr.format_concat base page_num :: numbered_pages base (page_num + 1) n.
Proof.
  unfold numbered_pages. simpl. rewrite Z.add_0_r. f_equal.
  rewrite <- seq_shift, <- list_fmap_compose. apply list_fmap_ext.
  intros _ i _. simpl. f_equal. lia.
Qed.

Lemma numbered_pages_NoDup base page_num n : NoDup (base :: numbered_pages base page_num n).
Proof.
  apply NoDup_cons. split.
  - unfold numbered_pages. rewrite list_elem_of_fmap. intros (i & H & _).
    symmetry in H. by apply format_concat_ne_base in H.
  - unfold numbered_pages. apply NoDup_fmap_2.
    + intros i j H. apply format_concat_inj in H. lia.
    + apply NoDup_seq.
Qed.

Section ArchiveFacts.
Context {World Html : Type}.
Variable env : Env World Html.
Variable settings : Settings.

(** Processing articles touches neither the archive crawler's sets nor
    its downloads. *)
Definition archive_side_is (good problematic known : gset string) (downloads : list string)
    (st : State World Html) : Prop :=
  good_urls st = good ∧ problematic_urls st = problematic ∧
  known_article_urls st = known ∧ archive_downloads (trace st) = downloads.

Lemma process_urls_archive_side it (st : State World Html) :
  archive_side_is (good_urls st) (problematic_urls st) (known_article_urls st)
    (archive_downloads (trace st)) (process_urls env settings it st).
Proof.
  apply process_urls_keeps; unfold archive_side_is; simpl;
    try solve [intros; simpl; rewrite ?archive_downloads_app; simpl;
               rewrite ?app_nil_r; tauto].
  intros url st'. rewrite admit_new_spec. simpl. tauto.
Qed.

Lemma walk_archive_pages_stop fuel base page_num (st : State World Html) :
  walk_archive_pages env settings fuel base None page_num st = Finished st.
Proof. by destruct fuel. Qed.

Lemma walk_archive_pages_failed fuel base url page_num (st : State World Html) w :
  archive_download_url env (world st) url = (None, w) →
  walk_archive_pages env settings (S fuel) base (Some url) page_num st =
  Finished (add_problematic_url url (record_event (ArchiveDownload url) (set_world w st))).
Proof. intros H. simpl. rewrite H. apply walk_archive_pages_stop. Qed.

Lemma walk_archive_pages_downloaded fuel base url page_num (st : State World Html) html w :
  archive_download_url env (world st) url = (Some html, w) →
  walk_archive_pages env settings (S fuel) base (Some url) page_num st =
  walk_archive_pages env settings fuel base
    (_extract_next_page_url env settings (known_article_urls st) html base
       (extract_article_urls_from_page env html settings) page_num
       (max_pagenum settings) (next_url_by_regex settings)
       (next_url_by_pagenum settings) (same_article_url_threshold settings))
    (page_num + 1)
    (process_urls env settings (extract_article_urls_from_page env html settings)
       (add_good_url url (record_event (ArchiveDownload url) (set_world w st)))).
Proof. intros H. simpl. by rewrite H. Qed.

(** The page-number rule, spelled out. *)
Definition pagenum_continues (known : gset string) (article_urls : list string)
    (page_num : Z) (max_pagenum : option Z) (threshold : Z) : Prop :=
  article_urls ≠ [] ∧
  (known = ∅ ∨ threshold < Z.of_nat (size (known ∩ list_to_set article_urls))) ∧
  (max_pagenum = None ∨ ∃ m, max_pagenum = Some m ∧ page_num < m).

Lemma pagenum_continues_test known article_urls page_num max_pagenum threshold :
  (0 <? Z.of_nat (length article_urls))
  && ((Z.of_nat (size known) =? 0)
      || (threshold <? Z.of_nat (size (known ∩ list_to_set article_urls))))
  && (match max_pagenum with None => true | Some m => page_num <? m end) = true
  ↔ pagenum_continues known article_urls page_num max_pagenum threshold.
Proof.
  unfold pagenum_continues.
  rewrite !andb_true_iff, orb_true_iff, Z.ltb_lt, Z.eqb_eq, Z.ltb_lt.
  assert (0 < Z.of_nat (length article_urls) ↔ article_urls ≠ []) as ->.
  { destruct article_urls; simpl; split; try done; lia. }
  assert (Z.of_nat (size known) = 0 ↔ known = ∅) as ->.
  { rewrite <- size_zero_iff_empty. lia. }
  assert ((match max_pagenum with None => true | Some m => page_num <? m end) = true
          ↔ max_pagenum = None ∨ ∃ m, max_pagenum = Some m ∧ page_num < m) as ->; [|tauto].
  destruct max_pagenum as [m|].
  - rewrite Z.ltb_lt. split; [intros; right; eauto|].
    intros [?|(m' & [= <-] & ?)]; done.
  - split; [by left|done].
Qed.

Lemma _extract_next_page_url_pagenum known html base article_urls page_num max_pagenum
    threshold :
  (∀ url,
      _extract_next_page_url env settings known html base article_urls page_num max_pagenum
        false true threshold = Some url
      ↔ url = PyStr.format_concat base page_num ∧
        pagenum_continues known article_urls page_num max_pagenum threshold) ∧
  (_extract_next_page_url env settings known html base article_urls page_num max_pagenum
     false true threshold = None
   ↔ ¬ pagenum_continues known article_urls page_num max_pagenum threshold).
Proof.
  pose proof (pagenum_continues_test known article_urls page_num max_pagenum threshold) as T.
  unfold _extract_next_page_url. simpl.
  match goal with |- context [if ?b then _ else _] => destruct b end.
  - assert (pagenum_continues known article_urls page_num max_pagenum threshold) by by apply T.
    split; [intros url|]; split; try done.
    + by intros [= <-].
    + by intros [-> _].
  - assert (¬ pagenum_continues known article_urls page_num max_pagenum threshold)
      by (by intros ?%T).
    split; [intros url|]; split; try done. by intros [_ ?].
Qed.

Lemma _extract_next_page_url_no_regex known html base article_urls page_num max_pagenum
    use_pagenum threshold url :
  _extract_next_page_url env settings known html base article_urls page_num max_pagenum
    false use_pagenum threshold = Some url →
  url = PyStr.format_concat base page_num ∧
  article_urls ≠ [] ∧ (∀ m, max_pagenum = Some m → page_num < m).
Proof.
  destruct use_pagenum; [|done].
  intros H. apply _extract_next_page_url_pagenum in H as (-> & Hl & _ & Hm).
  repeat split; try done.
  intros m ->. by destruct Hm as [?|(m' & [= <-] & ?)].
Qed.

End ArchiveFacts.

Section WalkWithoutRegex.
Context {World Html : Type}.
Variable env : Env World Html.
Variable settings : Settings.
Variable base : string.
Hypothesis no_regex : next_url_by_regex settings = false.

(** Without the next-page link, the pages downloaded for one base URL
    are the base URL and then the numbered pages, in order. *)
Lemma walk_numbered_pages fuel url page_num (st : State World Html) :
  ∃ l, archive_downloads
         (trace (outcome_state
                   (walk_archive_pages env settings fuel base (Some url) page_num st)))
       = archive_downloads (trace st) ++ l ∧
       (l = [] ∨ ∃ n, l = url :: numbered_pages base page_num n).
Proof.
  revert url page_num st. induction fuel as [|fuel IH]; intros url page_num st.
  { exists []. simpl. rewrite app_nil_r. auto. }
  destruct (archive_download_url env (world st) url) as [[html|] w] eqn:Hd.
  - rewrite (walk_archive_pages_downloaded _ _ _ _ _ _ _ _ _ Hd), no_regex.
    set (st1 := add_good_url url _).
    destruct (process_urls_archive_side env settings
                (extract_article_urls_from_page env html settings) st1) as (_ & _ & _ & Ht).
    destruct (_extract_next_page_url _ _ _ _ _ _ _ _ _ _ _) as [url'|] eqn:En.
    + apply _extract_next_page_url_no_regex in En as (-> & _).
      destruct (IH (PyStr.format_concat base page_num) (page_num + 1)
                  (process_urls env settings
                     (extract_article_urls_from_page env html settings) st1))
        as (l & -> & Hl).
      rewrite Ht. simpl. rewrite archive_downloads_app. simpl.
      exists (url :: l). rewrite <- app_assoc. split; [done|]. right.
      destruct Hl as [->|(n & ->)].
      * by exists 0%nat.
      * exists (S n). by rewrite numbered_pages_S.
    + rewrite walk_archive_pages_stop. simpl. rewrite Ht. simpl.
      rewrite archive_downloads_app. simpl.
      exists [url]. split; [done|]. right. by exists 0%nat.
  - rewrite (walk_archive_pages_failed _ _ _ _ _ _ _ _ Hd). simpl.
    rewrite archive_downloads_app. simpl.
    exists [url]. split; [done|]. right. by exists 0%nat.
Qed.

(** The walk ends once the page number has reached a bound [stop_at]
    from which on the rule for the next page gives none. [expected] says
    which URL can be current at which page number. *)
Variable expected : Z → string → Prop.
Variable stop_at : Z.
Hypothesis expected_next : ∀ page_num, expected (page_num + 1) (PyStr.format_concat base page_num).
Hypothesis stops :
  ∀ page_num url w html w' known,
    stop_at ≤ page_num → expected page_num url →
    archive_download_url env w url = (Some html, w') →
    _extract_next_page_url env settings known html base
      (extract_article_urls_from_page env html settings) page_num
      (max_pagenum settings) false (next_url_by_pagenum settings)
      (same_article_url_threshold settings) = None.

Lemma walk_finishes n url page_num (st : State World Html) :
  expected page_num url → stop_at - page_num ≤ Z.of_nat n →
  is_finished (walk_archive_pages env settings (S n) base (Some url) page_num st) = true.
Proof.
  revert url page_num st. induction n as [|n IH]; intros url page_num st He Hn.
  - destruct (archive_download_url env (world st) url) as [[html|] w] eqn:Hd.
    + rewrite (walk_archive_pages_downloaded _ _ _ _ _ _ _ _ _ Hd), no_regex.
      erewrite stops; [done| |done..]. lia.
    + by rewrite (walk_archive_pages_failed _ _ _ _ _ _ _ _ Hd).
  - destruct (archive_download_url env (world st) url) as [[html|] w] eqn:Hd.
    + rewrite (walk_archive_pages_downloaded _ _ _ _ _ _ _ _ _ Hd), no_regex.
      destruct (_extract_next_page_url _ _ _ _ _ _ _ _ _ _ _) as [url'|] eqn:En.
      * apply _extract_next_page_url_no_regex in En as (-> & _).
        apply IH; [done|lia].
      * by rewrite walk_archive_pages_stop.
    + by rewrite (walk_archive_pages_failed _ _ _ _ _ _ _ _ Hd).
Qed.

End WalkWithoutRegex.

Section WalkByPagenum.
Context {World Html : Type}.
Variable env : Env World Html.
Variable settings : Settings.
Variable base : string.
Variable known : gset string.
Hypothesis no_regex : next_url_by_regex settings = false.
Hypothesis by_pagenum : next_url_by_pagenum settings = true.

(** Every download succeeds, every page lists an article URL and the
    known article URLs do not stand in the way. *)
Definition every_page_continues : Prop :=
  ∀ w url, ∃ html w',
    archive_download_url env w url = (Some html, w') ∧
    extract_article_urls_from_page env html settings ≠ [] ∧
    (known = ∅ ∨
     same_article_url_threshold settings
     < Z.of_nat (size (known ∩ list_to_set (extract_article_urls_from_page env html settings)))).

Hypothesis continues : every_page_continues.

(** One turn of the loop under these conditions. *)
Lemma walk_pagenum_step fuel url page_num m (st : State World Html) :
  max_pagenum settings = Some m → known_article_urls st = known →
  ∃ st',
    walk_archive_pages env settings (S fuel) base (Some url) page_num st =
    walk_archive_pages env settings fuel base
      (if decide (page_num < m) then Some (PyStr.format_concat base page_num) else None)
      (page_num + 1) st' ∧
    known_article_urls st' = known ∧
    archive_downloads (trace st') = archive_downloads (trace st) ++ [url].
Proof.
  intros Hm Hk.
  destruct (continues (world st) url) as (html & w & Hd & Hl & Hkn).
  rewrite (walk_archive_pages_downloaded _ _ _ _ _ _ _ _ _ Hd), no_regex, by_pagenum, Hm.
  set (st1 := add_good_url url _).
  destruct (process_urls_archive_side env settings
              (extract_article_urls_from_page env html settings) st1) as (_ & _ & Hk' & Ht).
  exists (process_urls env settings (extract_article_urls_from_page env html settings) st1).
  change (known_article_urls st1) with (known_article_urls st) in *.
  split; [|split; [rewrite Hk'; exact Hk|]].
  - f_equal. rewrite Hk. case_decide as Hlt.
    + apply _extract_next_page_url_pagenum. split; [done|].
      split; [done|]. split; [done|]. right. eauto.
    + apply _extract_next_page_url_pagenum.
      intros (_ & _ & [?|(m' & [= <-] & ?)]); done.
  - rewrite Ht. simpl. by rewrite archive_downloads_app.
Qed.

End WalkByPagenum.

(** C3: with the next-page link off and the page-number rule on,
    [_extract_next_page_url] gives [base + str(page_num)] exactly when the
    page has an article URL, the known article URLs are none or more than
    [same_article_url_threshold] of them are on the page, and [max_pagenum]
    is [None] or above [page_num]; otherwise it gives [None]. With
    [min_pagenum = 1] and [max_pagenum = 3], when every page downloads,
    lists an article URL and passes the test on the known article URLs,
    the walk of a base URL downloads three pages (the base URL, then
    pages 1 and 2) and ends. *)
Theorem C3_pagenum_rule_and_three_pages :
  ∀ {World Html : Type} (env : Env World Html) (settings : Settings),
    (∀ known html base article_urls page_num max_pagenum threshold,
        (∀ url,
            _extract_next_page_url env settings known html base article_urls page_num
              max_pagenum false true threshold = Some url
            ↔ url = PyStr.format_concat base page_num ∧
              (article_urls ≠ [] ∧
               (known = ∅ ∨ threshold < Z.of_nat (size (known ∩ list_to_set article_urls))) ∧
               (max_pagenum = None ∨ ∃ m, max_pagenum = Some m ∧ page_num < m))) ∧
        (_extract_next_page_url env settings known html base article_urls page_num
           max_pagenum false true threshold = None
         ↔ ¬ (article_urls ≠ [] ∧
              (known = ∅ ∨ threshold < Z.of_nat (size (known ∩ list_to_set article_urls))) ∧
              (max_pagenum = None ∨ ∃ m, max_pagenum = Some m ∧ page_num < m)))) ∧
    (next_url_by_regex settings = false → next_url_by_pagenum settings = true →
     min_pagenum settings = 1 → max_pagenum settings = Some 3 →
     ∀ base (st : State World Html),
       every_page_continues env settings (known_article_urls st) →
       ∀ fuel, (3 ≤ fuel)%nat →
         ∃ st',
           _gen_article_urls_from_archive_page_url_including_subpages env settings fuel base st
           = Finished st' ∧
           archive_downloads (trace st')
           = archive_downloads (trace st)
             ++ [base; PyStr.format_concat base 1; PyStr.format_concat base 2]).
Proof.
  intros World Html env settings. split.
  { intros. apply _extract_next_page_url_pagenum. }
  intros Hre Hpn Hmin Hmax base st Hc fuel Hfuel.
  destruct fuel as [|[|[|fuel]]]; try lia.
  unfold _gen_article_urls_from_archive_page_url_including_subpages. rewrite Hmin.
  destruct (walk_pagenum_step env settings base _ Hre Hpn Hc (S (S fuel)) base 1 3 st Hmax eq_refl)
    as (st1 & -> & Hk1 & Ht1).
  rewrite decide_True by lia.
  destruct (walk_pagenum_step env settings base _ Hre Hpn Hc (S fuel)
              (PyStr.format_concat base 1) (1 + 1) 3 st1 Hmax Hk1)
    as (st2 & -> & Hk2 & Ht2).
  rewrite decide_True by lia.
  destruct (walk_pagenum_step env settings base _ Hre Hpn Hc fuel
              (PyStr.format_concat base (1 + 1)) (1 + 1 + 1) 3 st2 Hmax Hk2)
    as (st3 & -> & Hk3 & Ht3).
  rewrite decide_False by lia. rewrite walk_archive_pages_stop.
  exists st3. split; [done|].
  rewrite Ht3, Ht2, Ht1, <- !app_assoc. done.
Qed.

(** Scenario B of the specification: pages 1 to 3 of one base URL. *)
Definition scenario_b : Settings := {|
  archive_page_urls_by_date := false;
  archive_page_urls_by_id := true;
  date_from := 737425;
  date_until := 737455;
  archive_url_format := "https://x/?p=";
  go_reverse_in_archive := false;
  min_pagenum := 1;
  max_pagenum := Some 3;
  next_url_by_regex := false;
  next_url_by_pagenum := true;
  same_article_url_threshold := 0;
  create_corpus := false
|}.

Definition site_one_article : Env unit Site.Page :=
  Site.uniform {| Site.links := ["https://x/a"]; Site.next_page := None; Site.published := None |}.

Lemma C3_witness :
  every_page_continues site_one_article scenario_b ∅ ∧
  ∃ st',
    _gen_article_urls_from_archive_page_url_including_subpages site_one_article scenario_b 3
      "https://x/?p=" (initial_state ∅ tt) = Finished st' ∧
    archive_downloads (trace st') = ["https://x/?p="; "https://x/?p=1"; "https://x/?p=2"].
Proof.
  assert (every_page_continues site_one_article scenario_b ∅) as H.
  { intros w url. eexists _, _. split; [reflexivity|]. split; [done|]. by left. }
  split; [exact H|].
  apply (proj2 (C3_pagenum_rule_and_three_pages site_one_article scenario_b)
           eq_refl eq_refl eq_refl eq_refl "https://x/?p=" (initial_state ∅ tt) H 3%nat).
  lia.
Defined.

(** A page whose next-page link leads back to itself. *)
Definition site_self_linked : Env unit Site.Page :=
  Site.uniform {| Site.links := []; Site.next_page := Some "A"; Site.published := None |}.

Lemma site_self_linked_walks_on fuel page_num (st : State unit Site.Page) :
  is_finished (walk_archive_pages site_self_linked (by_id_regex "A") fuel "A" (Some "A") page_num st)
  = false.
Proof.
  revert page_num st. induction fuel as [|fuel IH]; intros page_num st; [done|].
  erewrite walk_archive_pages_downloaded by reflexivity. apply IH.
Qed.

(** C4 as stated fails when the next page is taken from the page itself:
    on [site_self_linked] the walk downloads [A] again and again, and no
    amount of fuel lets it end. *)
Lemma C4_counterexample :
  archive_downloads
    (trace (outcome_state
              (_gen_article_urls_from_archive_page_url_including_subpages
                 site_self_linked (by_id_regex "A") 2 "A" (initial_state ∅ tt))))
  = ["A"; "A"] ∧
  ∀ fuel,
    is_finished
      (_gen_article_urls_from_archive_page_url_including_subpages
         site_self_linked (by_id_regex "A") fuel "A" (initial_state ∅ tt)) = false.
Proof.
  split; [vm_compute; reflexivity|].
  intros fuel. apply site_self_linked_walks_on.
Qed.

(** C4, amended: when the next page is not taken from a link in the page
    ([next_url_by_regex] off), the walk of a base URL downloads no page URL
    twice, and it ends: after at most [max_pagenum - min_pagenum + 1]
    downloads (and at least one) when [max_pagenum] is set, after one
    download when [next_url_by_pagenum] is off, and on a site where from
    some page number on the numbered page fails to download or lists no
    article URL. *)
Theorem C4_walk_without_regex :
  ∀ {World Html : Type} (env : Env World Html) (settings : Settings) (base : string),
    next_url_by_regex settings = false →
    (∀ fuel (st : State World Html),
        ∃ l,
          archive_downloads
            (trace (outcome_state
                      (_gen_article_urls_from_archive_page_url_including_subpages
                         env settings fuel base st)))
          = archive_downloads (trace st) ++ l ∧ NoDup l) ∧
    (∀ m fuel (st : State World Html),
        max_pagenum settings = Some m →
        (1 + Z.to_nat (m - min_pagenum settings) ≤ fuel)%nat →
        is_finished
          (_gen_article_urls_from_archive_page_url_including_subpages env settings fuel base st)
        = true) ∧
    (∀ fuel (st : State World Html),
        next_url_by_pagenum settings = false → (1 ≤ fuel)%nat →
        is_finished
          (_gen_article_urls_from_archive_page_url_including_subpages env settings fuel base st)
        = true) ∧
    (∀ last fuel (st : State World Html),
        (∀ page_num w,
            last ≤ page_num →
            match fst (archive_download_url env w (PyStr.format_concat base page_num)) with
            | Some html => extract_article_urls_from_page env html settings = []
            | None => True
            end) →
        (2 + Z.to_nat (last - min_pagenum settings) ≤ fuel)%nat →
        is_finished
          (_gen_article_urls_from_archive_page_url_including_subpages env settings fuel base st)
        = true).
Proof.
  intros World Html env settings base Hre.
  unfold _gen_article_urls_from_archive_page_url_including_subpages.
  split; [|split; [|split]].
  - intros fuel st.
    destruct (walk_numbered_pages env settings base Hre fuel base (min_pagenum settings) st)
      as (l & Hl & Hs).
    exists l. split; [done|].
    destruct Hs as [->|(n & ->)]; [constructor|apply numbered_pages_NoDup].
  - intros m fuel st Hm Hfuel.
    destruct fuel as [|n]; [lia|].
    apply (walk_finishes env settings base Hre (fun _ _ => True) m); [done| |done|lia].
    intros page_num url w html w' known Hle _ Hd.
    destruct (_extract_next_page_url _ _ _ _ _ _ _ _ _ _ _) as [url'|] eqn:En; [|done].
    apply _extract_next_page_url_no_regex in En as (_ & _ & Hlt).
    specialize (Hlt m Hm). lia.
  - intros fuel st Hpn Hfuel.
    destruct fuel as [|n]; [lia|].
    apply (walk_finishes env settings base Hre (fun _ _ => True) (min_pagenum settings));
      [done| |done|lia].
    intros page_num url w html w' known _ _ _. by rewrite Hpn.
  - intros last fuel st Hlast Hfuel.
    destruct fuel as [|[|n]]; try lia.
    destruct (archive_download_url env (world st) base) as [[html|] w] eqn:Hd.
    + rewrite (walk_archive_pages_downloaded _ _ _ _ _ _ _ _ _ Hd), Hre.
      destruct (_extract_next_page_url _ _ _ _ _ _ _ _ _ _ _) as [url'|] eqn:En; [|done].
      apply _extract_next_page_url_no_regex in En as (-> & _).
      apply (walk_finishes env settings base Hre
               (fun page_num url => url = PyStr.format_concat base (page_num - 1)) (last + 1)).
      * intros page_num. f_equal. lia.
      * intros page_num url w1 html1 w1' known Hle -> Hd1.
        specialize (Hlast (page_num - 1) w1). rewrite Hd1 in Hlast. simpl in Hlast.
        destruct (_extract_next_page_url _ _ _ _ _ _ _ _ _ _ _) as [url'|] eqn:En; [|done].
        apply _extract_next_page_url_no_regex in En as (_ & Hne & _).
        destruct Hne. apply Hlast. lia.
      * f_equal. lia.
      * lia.
    + by rewrite (walk_archive_pages_failed _ _ _ _ _ _ _ _ Hd).
Qed.

Lemma C4_witness :
  next_url_by_regex scenario_b = false ∧
  is_finished
    (_gen_article_urls_from_archive_page_url_including_subpages site_one_article scenario_b 3
       "https://x/?p=" (initial_state ∅ tt)) = true.
Proof.
  split; [reflexivity|].
  apply (proj1 (proj2 (C4_walk_without_regex site_one_article scenario_b "https://x/?p=" eq_refl))
           3 3%nat (initial_state ∅ tt) eq_refl).
  vm_compute. lia.
Defined.

(** ** Good and problematic URLs *)

Section Classification.
Context {World Html : Type}.
Variable env : Env World Html.
Variable settings : Settings.

Definition articles_apart (st : State World Html) : Prop :=
  good_article_urls st ## problematic_article_urls st.

Lemma articles_apart_run fuel st :
  articles_apart st →
  articles_apart (outcome_state (download_and_extract_all_articles env settings fuel st)).
Proof.
  apply download_and_extract_all_articles_keeps; clear st; unfold articles_apart; simpl;
    try solve [intros; simpl; tauto].
  - intros url st. rewrite admit_new_spec. simpl. tauto.
  - intros url html w st H Hg Hp _. set_solver.
  - intros url w st H Hg Hp _. set_solver.
Qed.

Lemma articles_apart_url_iterator fuel st :
  articles_apart st → articles_apart (outcome_state (url_iterator env settings fuel st)).
Proof.
  apply url_iterator_keeps; clear st; unfold articles_apart; simpl;
    try solve [intros; simpl; tauto].
  - intros url st. rewrite admit_new_spec. simpl. tauto.
  - intros url html w st H Hg Hp _. set_solver.
  - intros url w st H Hg Hp _. set_solver.
Qed.

(** Whether an archive page can be downloaded does not depend on when it
    is asked for. *)
Definition archive_download_settled : Prop :=
  ∀ w1 w2 url,
    is_Some (fst (archive_download_url env w1 url)) ↔
    is_Some (fst (archive_download_url env w2 url)).

Definition archive_as_downloaded (st : State World Html) : Prop :=
  (∀ url, url ∈ good_urls st → ∀ w, is_Some (fst (archive_download_url env w url))) ∧
  (∀ url, url ∈ problematic_urls st → ∀ w, ¬ is_Some (fst (archive_download_url env w url))).

Lemma archive_as_downloaded_apart st :
  inhabited World → archive_as_downloaded st → good_urls st ## problematic_urls st.
Proof.
  intros [w] [Hg Hp] url H1 H2. by apply (Hp url H2 w), Hg.
Qed.

Lemma archive_as_downloaded_run fuel st :
  archive_download_settled → archive_as_downloaded st →
  archive_as_downloaded (outcome_state (download_and_extract_all_articles env settings fuel st)).
Proof.
  intros Hs.
  apply download_and_extract_all_articles_keeps; clear st; unfold archive_as_downloaded; simpl;
    try solve [intros; simpl; tauto].
  - intros url st. rewrite admit_new_spec. simpl. tauto.
  - intros url html w st [Hg Hp] Hd. split; [|done].
    intros u [->%elem_of_singleton|?]%elem_of_union w'; [|by apply Hg].
    apply (Hs (world st)). by rewrite Hd.
  - intros url w st [Hg Hp] Hd. split; [done|].
    intros u [->%elem_of_singleton|?]%elem_of_union w'; [|by apply Hp].
    rewrite (Hs w' (world st)), Hd. simpl. by intros [? ?].
Qed.

Lemma archive_as_downloaded_url_iterator fuel st :
  archive_download_settled → archive_as_downloaded st →
  archive_as_downloaded (outcome_state (url_iterator env settings fuel st)).
Proof.
  intros Hs.
  apply url_iterator_keeps; clear st; unfold archive_as_downloaded; simpl;
    try solve [intros; simpl; tauto].
  - intros url st. rewrite admit_new_spec. simpl. tauto.
  - intros url html w st [Hg Hp] Hd. split; [|done].
    intros u [->%elem_of_singleton|?]%elem_of_union w'; [|by apply Hg].
    apply (Hs (world st)). by rewrite Hd.
  - intros url w st [Hg Hp] Hd. split; [done|].
    intros u [->%elem_of_singleton|?]%elem_of_union w'; [|by apply Hp].
    rewrite (Hs w' (world st)), Hd. simpl. by intros [? ?].
Qed.

End Classification.

(** A downloader that gives a page once and fails from then on; the page's
    next-page link leads back to the page. *)
Definition site_once : Env nat Site.Page := {|
  archive_download_url := fun w url =>
    if (w =? 0)%nat
    then (Some {| Site.links := []; Site.next_page := Some "A"; Site.published := None |}, S w)
    else (None, S w);
  article_download_url := fun w url => (None, w);
  extract_article_urls_from_page := fun html _ => Site.links html;
  extract_next_page_url := fun html _ => Site.next_page html;
  extract_article_date := fun html _ => Site.published html;
  article_to_corpus := fun w _ _ => w;
  iter_set := elements;
  iter_set_perm := fun s => reflexivity (elements s)
|}.

(** C8 as stated fails for the archive URLs: on [site_once] the walk asks
    for [A] twice; the first download succeeds and the second fails, and
    [A] ends up a good and a problematic archive URL. *)
Lemma C8_counterexample :
  let o := download_and_extract_all_articles site_once (by_id_regex "A") 2 (initial_state ∅ 0%nat) in
  is_finished o = true ∧
  "A" ∈ good_urls (outcome_state o) ∧ "A" ∈ problematic_urls (outcome_state o).
Proof.
  split; [vm_compute; reflexivity|].
  split; apply (bool_decide_unpack _); vm_compute; exact I.
Qed.

(** C8, amended: in the state any run has reached, whether the archive
    walk or the whole run, over or not, no URL is a good and a problematic
    article URL; and no URL is a good and a problematic archive URL
    provided that whether an archive page can be downloaded does not
    change during the run. *)
Theorem C8_good_and_problematic_apart :
  ∀ {World Html : Type} (env : Env World Html) (settings : Settings) fuel known (w : World),
    let st1 := outcome_state (url_iterator env settings fuel (initial_state known w)) in
    let st2 := outcome_state
                 (download_and_extract_all_articles env settings fuel (initial_state known w)) in
    (good_article_urls st1 ∩ problematic_article_urls st1 = ∅ ∧
     good_article_urls st2 ∩ problematic_article_urls st2 = ∅) ∧
    (archive_download_settled env →
     good_urls st1 ∩ problematic_urls st1 = ∅ ∧ good_urls st2 ∩ problematic_urls st2 = ∅).
Proof.
  intros World Html env settings fuel known w st1 st2. split.
  - split; apply disjoint_intersection_L.
    + apply articles_apart_url_iterator. unfold articles_apart. simpl. set_solver.
    + apply articles_apart_run. unfold articles_apart. simpl. set_solver.
  - intros Hs. split; apply disjoint_intersection_L;
      apply (archive_as_downloaded_apart env); try done.
    + apply archive_as_downloaded_url_iterator; [done|]. split; simpl; set_solver.
    + apply archive_as_downloaded_run; [done|]. split; simpl; set_solver.
Qed.

Lemma C8_witness :
  archive_download_settled site_one_article ∧
  let st2 := outcome_state
               (download_and_extract_all_articles site_one_article scenario_b 5
                  (initial_state ∅ tt)) in
  good_urls st2 ∩ problematic_urls st2 = ∅.
Proof.
  assert (archive_download_settled site_one_article) as H by (by intros w1 w2 url).
  split; [exact H|].
  apply (proj2 (C8_good_and_problematic_apart site_one_article scenario_b 5 ∅ tt) H).
Defined.

(** ** Articles outside the date window *)

Section DateFilter.
Context {World Html : Type}.
Variable env : Env World Html.
Variable settings : Settings.

Lemma article_date_is_ok_spec article_date :
  article_date_is_ok settings article_date = true ↔
  ∃ d, article_date = Some d ∧ date_from settings ≤ d ≤ date_until settings.
Proof.
  destruct article_date as [d|]; simpl.
  - rewrite andb_true_iff, !Z.leb_le. split; [eauto|].
    by intros (d' & [= <-] & ?).
  - split; [done|]. by intros (? & ? & _).
Qed.

(** The converter is only ever given an article with a date in the window. *)
Definition converted_in_window (st : State World Html) : Prop :=
  ∀ url html,
    ArticleToCorpus url html ∈ trace st →
    article_date_is_ok settings (extract_article_date env html settings) = true.

Lemma converted_in_window_run fuel st :
  converted_in_window st →
  converted_in_window (outcome_state (download_and_extract_all_articles env settings fuel st)).
Proof.
  apply download_and_extract_all_articles_keeps; clear st; unfold converted_in_window; simpl;
    try solve [intros; simpl; tauto];
    try solve [intros; repeat (rewrite elem_of_app, list_elem_of_singleton in * );
               naive_solver].
  intros url st. rewrite admit_new_spec. simpl. tauto.
Qed.

(** The sets and the world after an article has been downloaded do not
    depend on its date. *)
Lemma process_url_downloaded_new_urls url (st : State World Html) html w :
  url ∉ good_article_urls st → url ∉ problematic_article_urls st →
  article_download_url env (world st) url = (Some html, w) →
  let st' := process_url env settings url st in
  good_article_urls st' = {[url]} ∪ good_article_urls st ∧
  problematic_article_urls st' = problematic_article_urls st ∧
  ∀ link, link ∈ _new_urls st' ↔
          link ∈ _new_urls st ∨
          (link ∈ extract_article_urls_from_page env html settings ∧
           link ≠ url ∧ unclassified st link).
Proof.
  intros H1 H2 Hd st'. subst st'.
  rewrite (process_url_downloaded _ _ _ _ _ _ H1 H2 Hd), for_each_admit_new.
  unfold converted, date_checked, unclassified.
  destruct (article_date_is_ok _ _), (create_corpus settings); simpl;
    (split; [done|split; [done|]]); intros link;
    rewrite elem_of_union, elem_of_filter, elem_of_list_to_set; simpl;
    rewrite not_elem_of_union, elem_of_singleton; tauto.
Qed.

End DateFilter.

(** C7: an article that downloads but whose date is missing or not within
    [date_from <= date <= date_until] is not given to the converter: the
    step that processes it records its download and the warning, nothing
    else, and in no run does the converter get an article with such a
    date. Its links are admitted by the rule that holds for every
    downloaded article, whatever its date. *)
Theorem C7_outside_window_not_converted_links_admitted :
  ∀ {World Html : Type} (env : Env World Html) (settings : Settings)
    (st : State World Html) url html w,
    url ∉ good_article_urls st → url ∉ problematic_article_urls st →
    article_download_url env (world st) url = (Some html, w) →
    let article_date := extract_article_date env html settings in
    let st' := process_url env settings url st in
    (article_date_is_ok settings article_date = true ↔
     ∃ d, article_date = Some d ∧ date_from settings ≤ d ≤ date_until settings) ∧
    (article_date_is_ok settings article_date = false →
     trace st' = trace st ++ [ArticleDownload url; Log WARNING url (DateNotInInterval article_date)] ∧
     world st' = w) ∧
    (good_article_urls st' = {[url]} ∪ good_article_urls st ∧
     problematic_article_urls st' = problematic_article_urls st ∧
     ∀ link, link ∈ _new_urls st' ↔
             link ∈ _new_urls st ∨
             (link ∈ extract_article_urls_from_page env html settings ∧
              link ≠ url ∧ unclassified st link)) ∧
    (∀ fuel known w0 url' html',
        ArticleToCorpus url' html' ∈
          trace (outcome_state
                   (download_and_extract_all_articles env settings fuel (initial_state known w0))) →
        article_date_is_ok settings (extract_article_date env html' settings) = true).
Proof.
  intros World Html env settings st url html w H1 H2 Hd article_date st'.
  split; [apply article_date_is_ok_spec|]. split; [|split].
  - intros Hno. subst st' article_date.
    rewrite (process_url_downloaded _ _ _ _ _ _ H1 H2 Hd), for_each_admit_new.
    unfold converted, date_checked. rewrite Hno. simpl.
    by rewrite <- app_assoc.
  - by apply (process_url_downloaded_new_urls env settings url st html w).
  - intros fuel known w0 url' html'.
    apply (converted_in_window_run env settings fuel (initial_state known w0)).
    intros ? ? H. simpl in H. by apply elem_of_nil in H.
Qed.

Lemma C7_witness :
  let st' := process_url site_cross_linked (by_id_regex "A") "a1" (initial_state ∅ tt) in
  trace st' = [ArticleDownload "a1"; Log WARNING "a1" (DateNotInInterval None)] ∧
  ∀ link, link ∈ _new_urls st' ↔
          link ∈ _new_urls (initial_state (World := unit) (Html := Site.Page) ∅ tt) ∨
          (link ∈ ["x"; "y"] ∧ link ≠ "a1" ∧
           unclassified (initial_state (World := unit) (Html := Site.Page) ∅ tt) link).
Proof.
  pose proof (C7_outside_window_not_converted_links_admitted site_cross_linked (by_id_regex "A")
                (initial_state ∅ tt) "a1" _ tt
                (not_elem_of_empty _) (not_elem_of_empty _) eq_refl) as (_ & Ht & Hn & _).
  split.
  - apply Ht. reflexivity.
  - apply Hn.
Defined.

(** ** The archive base URLs *)

Lemma py_range_elem_of n k : k ∈ py_range n ↔ 0 ≤ k < n.
Proof.
  unfold py_range. rewrite list_elem_of_fmap. split.
  - intros (i & -> & Hi%elem_of_seq). lia.
  - intros H. exists (Z.to_nat k). split; [lia|]. apply elem_of_seq. lia.
Qed.

Lemma sort_urls_Permutation reverse l : sort_urls reverse l ≡ₚ l.
Proof. destruct reverse; apply merge_sort_Permutation. Qed.

Lemma date_mode_urls_elem_of s url :
  url ∈ date_mode_urls s ↔
  ∃ d, date_from s ≤ d ≤ date_until s ∧
       url = _gen_archive_page_url_from_date d (archive_url_format s).
Proof.
  unfold date_mode_urls. rewrite sort_urls_Permutation, elem_of_elements, elem_of_list_to_set.
  rewrite list_elem_of_fmap. split.
  - intros (k & -> & Hk%py_range_elem_of). exists (date_from s + k). split; [lia|done].
  - intros (d & Hd & ->). exists (d - date_from s). split.
    + f_equal. lia.
    + apply py_range_elem_of. lia.
Qed.

Lemma date_mode_urls_NoDup s : NoDup (date_mode_urls s).
Proof. unfold date_mode_urls. rewrite sort_urls_Permutation. apply NoDup_elements. Qed.

Lemma date_mode_urls_nil s : date_mode_urls s = [] ↔ date_until s < date_from s.
Proof.
  split.
  - intros H. destruct (decide (date_until s < date_from s)) as [|Hn]; [done|].
    assert (_gen_archive_page_url_from_date (date_from s) (archive_url_format s) ∈ date_mode_urls s)
      as Hin by (apply date_mode_urls_elem_of; exists (date_from s); split; [lia|done]).
    rewrite H in Hin. by apply elem_of_nil in Hin.
  - intros H. destruct (date_mode_urls s) as [|url l] eqn:E; [done|].
    assert (url ∈ date_mode_urls s) as (d & Hd & _)%date_mode_urls_elem_of
      by (rewrite E; left). lia.
Qed.

Lemma archive_page_urls_nil s :
  archive_page_urls s = [] ↔
  (archive_page_urls_by_date s = false ∨ date_until s < date_from s) ∧
  archive_page_urls_by_id s = false.
Proof.
  unfold archive_page_urls. rewrite <- date_mode_urls_nil.
  destruct (archive_page_urls_by_date s), (archive_page_urls_by_id s); simpl;
    try destruct (date_mode_urls s); simpl; split; try done; intuition congruence.
Qed.

Lemma archive_page_urls_date_mode s :
  archive_page_urls_by_date s = true →
  date_from s ≤ date_until s ∨ archive_page_urls_by_id s = false →
  archive_page_urls s = date_mode_urls s.
Proof.
  intros Hd H. unfold archive_page_urls. rewrite Hd.
  destruct (archive_page_urls_by_id s); simpl; [|done].
  destruct H as [H|H]; [|done].
  destruct (date_mode_urls s) eqn:E; [|done].
  apply date_mode_urls_nil in E. lia.
Qed.

(** The order the sort leaves, by [go_reverse_in_archive]. *)
Definition url_order (reverse : bool) : relation string :=
  if reverse then flip String.le else String.le.

Lemma sort_urls_sorted reverse l : StronglySorted (url_order reverse) (sort_urls reverse l).
Proof. destruct reverse; simpl; apply StronglySorted_merge_sort; apply _. Qed.

Lemma date_mode_urls_sorted s :
  StronglySorted (url_order (go_reverse_in_archive s)) (date_mode_urls s).
Proof. apply sort_urls_sorted. Qed.

Definition both_modes_empty_range : Settings := {|
  archive_page_urls_by_date := true;
  archive_page_urls_by_id := true;
  date_from := 737455;
  date_until := 737425;
  archive_url_format := "https://x/#year/#month";
  go_reverse_in_archive := false;
  min_pagenum := 1;
  max_pagenum := None;
  next_url_by_regex := false;
  next_url_by_pagenum := false;
  same_article_url_threshold := 0;
  create_corpus := true
|}.

(** C5 as stated fails when id mode is on beside date mode and the date
    range is empty: no day gives a URL, and line 73 then puts the template
    itself, with its placeholders, in the list. *)
Lemma C5_counterexample :
  archive_page_urls_by_date both_modes_empty_range = true ∧
  archive_page_urls both_modes_empty_range = ["https://x/#year/#month"] ∧
  ¬ (∃ d, date_from both_modes_empty_range ≤ d ≤ date_until both_modes_empty_range ∧
          "https://x/#year/#month"
          = _gen_archive_page_url_from_date d (archive_url_format both_modes_empty_range)).
Proof.
  split; [reflexivity|]. split; [vm_compute; reflexivity|].
  intros (d & H & _). simpl in H. lia.
Qed.

(** C5, amended: in date mode, unless the date range is empty while id
    mode is on as well, the archive base URLs are, without repetition, the
    strings [_gen_archive_page_url_from_date] gives for the days from
    [date_from] to [date_until], both included; they are in ascending
    order, or in descending order when [go_reverse_in_archive] is set, and
    this determines the list. For the template [https://x/#year/#month]
    and the 31 days of January 2020 the list is [https://x/2020/01] alone.
    When the date range is empty and id mode is on as well, the list is
    the template alone, as it is written. *)
Theorem C5_date_mode_urls :
  ∀ s : Settings,
    archive_page_urls_by_date s = true →
    (date_from s ≤ date_until s ∨ archive_page_urls_by_id s = false →
     let l := archive_page_urls s in
     let generated url :=
       ∃ d, date_from s ≤ d ≤ date_until s ∧
            url = PyStr.replace "#day" (PyStr.format_0d 2 (PyDate.day d))
                    (PyStr.replace "#month" (PyStr.format_0d 2 (PyDate.month d))
                       (PyStr.replace "#year" (PyStr.format_0d 4 (PyDate.year d))
                          (archive_url_format s))) in
     NoDup l ∧ (∀ url, url ∈ l ↔ generated url) ∧
     (go_reverse_in_archive s = false → StronglySorted String.le l) ∧
     (go_reverse_in_archive s = true → StronglySorted (flip String.le) l) ∧
     (∀ l', NoDup l' → (∀ url, url ∈ l' ↔ generated url) →
            StronglySorted (url_order (go_reverse_in_archive s)) l' → l' = l) ∧
     (archive_url_format s = "https://x/#year/#month" →
      date_from s = 737425 → date_until s = 737455 → l = ["https://x/2020/01"])) ∧
    (date_until s < date_from s → archive_page_urls_by_id s = true →
     archive_page_urls s = [archive_url_format s]).
Proof.
  intros s Hd. split.
  - intros Hr l generated. subst l generated.
    rewrite (archive_page_urls_date_mode s Hd Hr).
    split; [apply date_mode_urls_NoDup|]. split; [apply date_mode_urls_elem_of|].
    pose proof (date_mode_urls_sorted s) as Hs.
    split; [by intros E; rewrite E in Hs|]. split; [by intros E; rewrite E in Hs|]. split.
    + intros l' Hn Hl Hs'.
      assert (l' ≡ₚ date_mode_urls s) as Hp.
      { apply NoDup_Permutation; [done|apply date_mode_urls_NoDup|].
        intros url. rewrite Hl. symmetry. apply date_mode_urls_elem_of. }
      revert Hs Hs'. destruct (go_reverse_in_archive s); simpl; intros Hs Hs'.
      * by apply (StronglySorted_unique (flip String.le)).
      * by apply (StronglySorted_unique String.le).
    + intros Hf H1 H2. unfold date_mode_urls. rewrite Hf, H1, H2.
      by destruct (go_reverse_in_archive s); vm_compute.
  - intros Hlt Hid. unfold archive_page_urls. rewrite Hd, Hid.
    apply date_mode_urls_nil in Hlt. by rewrite Hlt.
Qed.

Lemma C5_witness :
  archive_page_urls_by_date scenario_a = true ∧
  archive_page_urls scenario_a = ["https://x/2020/01"].
Proof.
  split; [reflexivity|].
  apply (proj1 (C5_date_mode_urls scenario_a eq_refl) (or_intror eq_refl)); reflexivity.
Defined.

(** ** The error of [url_iterator] *)

Section NoOtherError.
Context {World Html : Type}.
Variable env : Env World Html.
Variable settings : Settings.

Definition raises (o : Outcome World Html) : Prop := ∃ e st, o = Raised e st.

Lemma walk_archive_pages_no_raise fuel base next page_num st :
  ¬ raises (walk_archive_pages env settings fuel base next page_num st).
Proof.
  revert next page_num st. induction fuel as [|fuel IH]; intros [url|] page_num st;
    simpl; try by intros (? & ? & ?).
  destruct (archive_download_url env (world st) url) as [[html|] w]; apply IH.
Qed.

Lemma walk_archives_no_raise fuel urls st : ¬ raises (walk_archives env settings fuel urls st).
Proof.
  revert st. induction urls as [|url urls IH]; intros st; simpl; [by intros (? & ? & ?)|].
  unfold _gen_article_urls_from_archive_page_url_including_subpages.
  pose proof (walk_archive_pages_no_raise fuel url (Some url) (min_pagenum settings) st) as H.
  destruct (walk_archive_pages _ _ _ _ _ _ _); [apply IH| |by intros (? & ? & ?)].
  destruct H. by eexists _, _.
Qed.

Lemma drain_new_urls_no_raise fuel st : ¬ raises (drain_new_urls env settings fuel st).
Proof.
  revert st. induction fuel as [|fuel IH]; intros st; simpl;
    case_decide; try by intros (? & ? & ?). apply IH.
Qed.

Lemma url_iterator_walks fuel st :
  archive_page_urls settings ≠ [] →
  url_iterator env settings fuel st =
  walk_archives env settings fuel (archive_page_urls settings) st.
Proof. unfold url_iterator. by destruct (archive_page_urls settings). Qed.

(** Every download has been classified: the archive pages asked for are
    the good and the problematic archive URLs, the articles asked for are
    the good and the problematic article URLs, and each problematic article
    URL has its line in the log. *)
Definition downloads_classified (st : State World Html) : Prop :=
  (∀ url, ArchiveDownload url ∈ trace st ↔ url ∈ good_urls st ∨ url ∈ problematic_urls st) ∧
  (∀ url, ArticleDownload url ∈ trace st ↔
          url ∈ good_article_urls st ∨ url ∈ problematic_article_urls st) ∧
  (∀ url, url ∈ problematic_article_urls st → Log ERROR url DownloadFailed ∈ trace st).

Lemma downloads_classified_initial known w : downloads_classified (initial_state known w).
Proof.
  repeat split; simpl; try set_solver; by intros ?%elem_of_nil.
Qed.

Lemma downloads_classified_run fuel st :
  downloads_classified st →
  downloads_classified (outcome_state (download_and_extract_all_articles env settings fuel st)).
Proof.
  apply download_and_extract_all_articles_keeps; clear st; unfold downloads_classified.
  - intros level url text st (Ha & Hb & Hc). simpl.
    split; [|split]; intros u; rewrite ?elem_of_app, ?list_elem_of_singleton;
      [rewrite <- Ha|rewrite <- Hb|]; naive_solver.
  - by intros s st H _.
  - intros url st H. by rewrite admit_new_spec.
  - intros url html st (Ha & Hb & Hc) _. simpl.
    split; [|split]; intros u; rewrite ?elem_of_app, ?list_elem_of_singleton;
      [rewrite <- Ha|rewrite <- Hb|]; naive_solver.
  - intros url html w st (Ha & Hb & Hc) _ _ _. simpl.
    split; [|split]; intros u;
      rewrite ?elem_of_app, ?list_elem_of_singleton, ?elem_of_union, ?elem_of_singleton;
      [rewrite <- Ha|rewrite Hb|]; naive_solver.
  - intros url w st (Ha & Hb & Hc) _ _ _. simpl.
    split; [|split]; intros u;
      rewrite ?elem_of_app, ?list_elem_of_singleton, ?elem_of_union, ?elem_of_singleton;
      [rewrite <- Ha|rewrite Hb|]; naive_solver.
  - intros url html w st (Ha & Hb & Hc) _. simpl.
    split; [|split]; intros u;
      rewrite ?elem_of_app, ?list_elem_of_singleton, ?elem_of_union, ?elem_of_singleton;
      [rewrite Ha|rewrite <- Hb|]; naive_solver.
  - intros url w st (Ha & Hb & Hc) _. simpl.
    split; [|split]; intros u;
      rewrite ?elem_of_app, ?list_elem_of_singleton, ?elem_of_union, ?elem_of_singleton;
      [rewrite Ha|rewrite <- Hb|]; naive_solver.
Qed.

End NoOtherError.

(** C6: the run raises [ValueError] exactly when the list of archive base
    URLs is empty, which is when id mode is off and date mode is off or
    has an empty date range; it is then raised in the state the run
    started in, with nothing downloaded and nothing logged; no other
    exception ends a run: the walk of an archive, the walk of all of them
    and the loop on the new URLs never raise. A failed download is
    absorbed: a failed archive page becomes a problematic archive URL and
    ends the walk of its base URL normally, so that the next base URL is
    walked; a failed article is logged and becomes a problematic article
    URL, and the loop goes on with the next URL. In the state any run has
    reached every page asked for is a good or a problematic URL of its
    kind, and every problematic article URL has its error line in the
    log. *)
Theorem C6_value_error_iff_no_archive_url :
  ∀ {World Html : Type} (env : Env World Html) (settings : Settings) fuel
    (st : State World Html),
    let o := download_and_extract_all_articles env settings fuel st in
    (archive_page_urls settings = [] ↔
     (archive_page_urls_by_date settings = false ∨ date_until settings < date_from settings) ∧
     archive_page_urls_by_id settings = false) ∧
    ((∃ e st', o = Raised e st') ↔ archive_page_urls settings = []) ∧
    (archive_page_urls settings = [] → o = Raised ValueError st) ∧
    (∀ e st', o = Raised e st' → e = ValueError ∧ st' = st) ∧
    (∀ fuel' base next page_num (st0 : State World Html) e st',
        walk_archive_pages env settings fuel' base next page_num st0 ≠ Raised e st') ∧
    (∀ fuel' urls (st0 : State World Html) e st',
        walk_archives env settings fuel' urls st0 ≠ Raised e st') ∧
    (∀ fuel' (st0 : State World Html) e st',
        download_gathered_new_urls env settings fuel' st0 ≠ Raised e st') ∧
    (∀ fuel' url rest (st0 : State World Html) w,
        archive_download_url env (world st0) url = (None, w) →
        ∃ st1,
          _gen_article_urls_from_archive_page_url_including_subpages env settings (S fuel') url st0
          = Finished st1 ∧
          walk_archives env settings (S fuel') (url :: rest) st0
          = walk_archives env settings (S fuel') rest st1 ∧
          problematic_urls st1 = {[url]} ∪ problematic_urls st0 ∧
          good_urls st1 = good_urls st0 ∧
          good_article_urls st1 = good_article_urls st0 ∧
          problematic_article_urls st1 = problematic_article_urls st0 ∧
          _new_urls st1 = _new_urls st0 ∧
          trace st1 = trace st0 ++ [ArchiveDownload url]) ∧
    (∀ url rest (st0 : State World Html) w,
        url ∉ good_article_urls st0 → url ∉ problematic_article_urls st0 →
        article_download_url env (world st0) url = (None, w) →
        let st1 := process_url env settings url st0 in
        process_urls env settings (url :: rest) st0 = process_urls env settings rest st1 ∧
        problematic_article_urls st1 = {[url]} ∪ problematic_article_urls st0 ∧
        good_article_urls st1 = good_article_urls st0 ∧
        good_urls st1 = good_urls st0 ∧
        problematic_urls st1 = problematic_urls st0 ∧
        _new_urls st1 = _new_urls st0 ∧
        trace st1 = trace st0 ++ [ArticleDownload url; Log ERROR url DownloadFailed]) ∧
    (∀ fuel' known w,
        let st' := outcome_state
                     (download_and_extract_all_articles env settings fuel'
                        (initial_state known w)) in
        (∀ url, ArchiveDownload url ∈ trace st' ↔
                url ∈ good_urls st' ∨ url ∈ problematic_urls st') ∧
        (∀ url, ArticleDownload url ∈ trace st' ↔
                url ∈ good_article_urls st' ∨ url ∈ problematic_article_urls st') ∧
        (∀ url, url ∈ problematic_article_urls st' →
                Log ERROR url DownloadFailed ∈ trace st')).
Proof.
  intros World Html env settings fuel st o.
  assert (archive_page_urls settings = [] → o = Raised ValueError st) as Hraise.
  { intros H. subst o. unfold download_and_extract_all_articles, url_iterator. by rewrite H. }
  assert ((∃ e st', o = Raised e st') → archive_page_urls settings = []) as Hnil.
  { intros Hr. destruct (decide (archive_page_urls settings = [])) as [|E]; [done|].
    exfalso. subst o. unfold download_and_extract_all_articles in Hr.
    rewrite url_iterator_walks in Hr by done.
    pose proof (walk_archives_no_raise env settings fuel (archive_page_urls settings) st) as H1.
    destruct (walk_archives _ _ _ _ _) as [st1| |].
    - by apply (drain_new_urls_no_raise env settings fuel (recheck_new_urls st1)).
    - by apply H1.
    - by destruct Hr as (? & ? & ?). }
  split; [apply archive_page_urls_nil|]. split; [|split; [done|]].
  { split; [done|]. intros H. rewrite (Hraise H). by eexists _, _. }
  split.
  { intros e st' H. rewrite Hraise in H; [destruct e; split; congruence|].
    apply Hnil. by eexists _, _. }
  split.
  { intros fuel' base next page_num st0 e st' H.
    apply (walk_archive_pages_no_raise env settings fuel' base next page_num st0).
    by eexists _, _. }
  split.
  { intros fuel' urls st0 e st' H.
    apply (walk_archives_no_raise env settings fuel' urls st0). by eexists _, _. }
  split.
  { intros fuel' st0 e st' H.
    apply (drain_new_urls_no_raise env settings fuel' (recheck_new_urls st0)). by eexists _, _. }
  split.
  { intros fuel' url rest st0 w Hd.
    exists (add_problematic_url url (record_event (ArchiveDownload url) (set_world w st0))).
    assert (_gen_article_urls_from_archive_page_url_including_subpages env settings
              (S fuel') url st0
            = Finished (add_problematic_url url
                          (record_event (ArchiveDownload url) (set_world w st0)))) as E.
    { by apply walk_archive_pages_failed. }
    split; [exact E|]. split; [|done].
    change (walk_archives env settings (S fuel') (url :: rest) st0)
      with (match _gen_article_urls_from_archive_page_url_including_subpages env settings
                    (S fuel') url st0 with
            | Finished st' => walk_archives env settings (S fuel') rest st'
            | o => o
            end).
    by rewrite E. }
  split.
  { intros url rest st0 w H1 H2 Hd st1. subst st1.
    split; [done|]. rewrite (process_url_failed env settings url st0 w) by done.
    simpl. by rewrite <- app_assoc. }
  intros fuel' known w st'.
  apply (downloads_classified_run env settings fuel' (initial_state known w)).
  apply downloads_classified_initial.
Qed.

Definition no_archive_mode : Settings := {|
  archive_page_urls_by_date := false;
  archive_page_urls_by_id := false;
  date_from := 737425;
  date_until := 737455;
  archive_url_format := "https://x/#year/#month";
  go_reverse_in_archive := false;
  min_pagenum := 1;
  max_pagenum := None;
  next_url_by_regex := false;
  next_url_by_pagenum := false;
  same_article_url_threshold := 0;
  create_corpus := true
|}.

Lemma C6_witness :
  archive_page_urls no_archive_mode = [] ∧
  download_and_extract_all_articles site_one_article no_archive_mode 7 (initial_state ∅ tt)
  = Raised ValueError (initial_state ∅ tt).
Proof.
  split; [reflexivity|].
  apply (C6_value_error_iff_no_archive_url site_one_article no_archive_mode 7 (initial_state ∅ tt)).
  reflexivity.
Defined.

(** ** [str.strip] *)

(** A string of characters of [chars], one after the other. *)
Inductive made_of (chars : list (list ascii)) : list ascii → Prop :=
  | made_of_nil : made_of chars []
  | made_of_cons c s : c ∈ chars → made_of chars s → made_of chars (c ++ s).

Section StripLeft.
Variable chars : list (list ascii).

Lemma drop_first_Some s s' :
  PyStr.drop_first chars s = Some s' → ∃ c, c ∈ chars ∧ s = c ++ s'.
Proof.
  induction chars as [|c cs IH]; simpl; [done|].
  case_bool_decide as E.
  - intros [= <-]. exists c. split; [left|]. by rewrite <- E at 1; rewrite take_drop.
  - intros (c' & ? & ?)%IH. exists c'. split; [by right|done].
Qed.

Lemma drop_first_None s c :
  PyStr.drop_first chars s = None → c ∈ chars → ¬ c `prefix_of` s.
Proof.
  induction chars as [|c' cs IH]; simpl; [by intros _ ?%elem_of_nil|].
  case_bool_decide as E; [done|].
  intros H [->|Hin]%elem_of_cons; [|by apply IH].
  intros [k ->]. by rewrite take_app_length in E.
Qed.

Lemma strip_left_S fuel s :
  PyStr.strip_left chars (S fuel) s =
  match PyStr.drop_first chars s with
  | Some s' => PyStr.strip_left chars fuel s'
  | None => s
  end.
Proof. done. Qed.

Lemma strip_left_fixed fuel s :
  PyStr.drop_first chars s = None → PyStr.strip_left chars fuel s = s.
Proof. intros H. destruct fuel; simpl; by rewrite ?H. Qed.

Lemma strip_left_split fuel s :
  ∃ pre, made_of chars pre ∧ s = pre ++ PyStr.strip_left chars fuel s.
Proof.
  revert s. induction fuel as [|fuel IH]; intros s; simpl.
  - exists []. split; [constructor|done].
  - destruct (PyStr.drop_first chars s) as [s'|] eqn:E.
    + apply drop_first_Some in E as (c & Hc & ->).
      destruct (IH s') as (pre & Hpre & Hs').
      exists (c ++ pre). split; [by constructor|]. by rewrite <- app_assoc, <- Hs'.
    + exists []. split; [constructor|done].
Qed.

Hypothesis chars_not_empty : ∀ c, c ∈ chars → c ≠ [].

Lemma drop_first_nil : PyStr.drop_first chars [] = None.
Proof.
  induction chars as [|c cs IH]; simpl; [done|].
  rewrite bool_decide_false.
  - apply IH. intros c' ?. apply chars_not_empty. by right.
  - rewrite take_nil. intros E. by apply (chars_not_empty c); [left|].
Qed.

Lemma strip_left_done fuel s :
  (length s ≤ fuel)%nat → PyStr.drop_first chars (PyStr.strip_left chars fuel s) = None.
Proof.
  revert s. induction fuel as [|fuel IH]; intros s Hs; simpl.
  - destruct s; [apply drop_first_nil|simpl in Hs; lia].
  - destruct (PyStr.drop_first chars s) as [s'|] eqn:E; [|done].
    apply IH. apply drop_first_Some in E as (c & Hc & ->).
    apply chars_not_empty in Hc. rewrite length_app in Hs.
    destruct c; [done|]. simpl in Hs. lia.
Qed.

Lemma made_of_app s t : made_of chars s → made_of chars t → made_of chars (s ++ t).
Proof.
  induction 1 as [|c s Hc Hs IH]; intros Ht; [done|].
  rewrite <- app_assoc. constructor; auto.
Qed.

End StripLeft.

Lemma made_of_reverse chars s : made_of (reverse <$> chars) s → made_of chars (reverse s).
Proof.
  induction 1 as [|c s Hc Hs IH]; [constructor|].
  apply list_elem_of_fmap in Hc as (c' & -> & Hc').
  rewrite reverse_app, reverse_involutive. apply made_of_app; [done|].
  rewrite <- (app_nil_r c'). constructor; [done|constructor].
Qed.

Lemma whitespace_not_empty c : c ∈ PyStr.whitespace → c ≠ [].
Proof.
  revert c. apply Forall_forall. apply (bool_decide_unpack _). vm_compute. exact I.
Qed.

Lemma reversed_whitespace_not_empty c : c ∈ reverse <$> PyStr.whitespace → c ≠ [].
Proof.
  intros (c' & -> & Hc')%list_elem_of_fmap E.
  apply (whitespace_not_empty c' Hc'). by rewrite <- (reverse_involutive c'), E.
Qed.

(** No encoding of a character starts another. *)
Lemma whitespace_prefix_free c c' :
  c ∈ PyStr.whitespace → c' ∈ PyStr.whitespace → c `prefix_of` c' → c = c'.
Proof.
  assert (Forall (fun c => Forall (fun c' => c `prefix_of` c' → c = c') PyStr.whitespace)
            PyStr.whitespace) as H
    by (apply (bool_decide_unpack _); vm_compute; exact I).
  intros Hc Hc'. rewrite Forall_forall in H. specialize (H c Hc).
  rewrite Forall_forall in H. by apply H.
Qed.

(** What [strip] gives: the line between white space on the left and on
    the right, with no white space at either end. *)
Definition stripped_of (line r : list ascii) : Prop :=
  (∃ pre post,
      line = pre ++ r ++ post ∧
      made_of PyStr.whitespace pre ∧ made_of PyStr.whitespace post) ∧
  (∀ c, c ∈ PyStr.whitespace → ¬ c `prefix_of` r) ∧
  (∀ c, c ∈ PyStr.whitespace → ¬ c `suffix_of` r).

Lemma strip_bytes_spec (b : list ascii) :
  stripped_of b (PyStr.rstrip_bytes (PyStr.lstrip_bytes b)).
Proof.
  unfold PyStr.rstrip_bytes, PyStr.lstrip_bytes.
  destruct (strip_left_split PyStr.whitespace (length b) b) as (pre & Hpre & Hb).
  pose proof (strip_left_done PyStr.whitespace whitespace_not_empty (length b) b (le_n _)) as Hl.
  set (m := PyStr.strip_left PyStr.whitespace (length b) b) in *.
  destruct (strip_left_split (reverse <$> PyStr.whitespace) (length m) (reverse m))
    as (post & Hpost & Hm).
  pose proof (strip_left_done (reverse <$> PyStr.whitespace) reversed_whitespace_not_empty
                (length m) (reverse m)) as Hr.
  rewrite length_reverse in Hr. specialize (Hr (le_n _)).
  set (x := PyStr.strip_left (reverse <$> PyStr.whitespace) (length m) (reverse m)) in *.
  assert (m = reverse x ++ reverse post) as Em
    by (by rewrite <- reverse_app, <- Hm, reverse_involutive).
  split; [|split].
  - exists pre, (reverse post). split; [by rewrite <- Em|]. split; [done|].
    by apply made_of_reverse.
  - intros c Hc [k Hk].
    apply (drop_first_None PyStr.whitespace m c Hl Hc).
    exists (k ++ reverse post). by rewrite Em, Hk, <- app_assoc.
  - intros c Hc Hs.
    apply (drop_first_None (reverse <$> PyStr.whitespace) x (reverse c) Hr).
    + apply list_elem_of_fmap. by exists c.
    + apply suffix_prefix_reverse in Hs. by rewrite reverse_involutive in Hs.
Qed.

Lemma strip_spec (line : string) :
  stripped_of (list_ascii_of_string line) (list_ascii_of_string (PyStr.strip line)).
Proof.
  unfold PyStr.strip. rewrite list_ascii_of_string_of_list_ascii. apply strip_bytes_spec.
Qed.

(** A string without white space at either end is left as it is. *)
Lemma strip_fixed (line : string) :
  (∀ c, c ∈ PyStr.whitespace → ¬ c `prefix_of` list_ascii_of_string line) →
  (∀ c, c ∈ PyStr.whitespace → ¬ c `suffix_of` list_ascii_of_string line) →
  PyStr.strip line = line.
Proof.
  intros Hp Hs. unfold PyStr.strip, PyStr.rstrip_bytes, PyStr.lstrip_bytes.
  set (b := list_ascii_of_string line) in *.
  assert (PyStr.drop_first PyStr.whitespace b = None) as Hl.
  { destruct (PyStr.drop_first PyStr.whitespace b) as [s'|] eqn:E; [|done].
    apply drop_first_Some in E as (c & Hc & Hb). destruct (Hp c Hc). by exists s'. }
  rewrite (strip_left_fixed _ _ _ Hl).
  assert (PyStr.drop_first (reverse <$> PyStr.whitespace) (reverse b) = None) as Hr.
  { destruct (PyStr.drop_first (reverse <$> PyStr.whitespace) (reverse b)) as [s'|] eqn:E; [|done].
    apply drop_first_Some in E as (c & (c' & -> & Hc)%list_elem_of_fmap & Hb).
    destruct (Hs c' Hc). apply suffix_prefix_reverse. by exists s'. }
  rewrite (strip_left_fixed _ _ _ Hr), reverse_involutive.
  apply string_of_list_ascii_of_string.
Qed.

(** A line of white space alone is stripped to the empty string. *)
Lemma strip_left_whitespace fuel s :
  made_of PyStr.whitespace s → (length s ≤ fuel)%nat →
  PyStr.strip_left PyStr.whitespace fuel s = [].
Proof.
  intros H. revert fuel. induction H as [|c s Hc Hs IH]; intros fuel Hf.
  - rewrite strip_left_fixed; [done|]. apply drop_first_nil, whitespace_not_empty.
  - pose proof (whitespace_not_empty c Hc) as Hne.
    destruct fuel as [|fuel].
    { rewrite length_app in Hf. destruct c; [done|simpl in Hf; lia]. }
    rewrite strip_left_S.
    destruct (PyStr.drop_first PyStr.whitespace (c ++ s)) as [s'|] eqn:E.
    + apply drop_first_Some in E as (c' & Hc' & E).
      assert (c = c') as <-.
      { destruct (prefix_weak_total c c' (c ++ s)) as [Hpre|Hpre].
        - by exists s.
        - exists s'. done.
        - by apply whitespace_prefix_free.
        - symmetry. by apply whitespace_prefix_free. }
      apply app_inv_head in E as <-. apply IH.
      rewrite length_app in Hf. destruct c; [done|simpl in Hf; lia].
    + exfalso. eapply drop_first_None; [exact E|exact Hc|]. by exists s.
Qed.

Lemma strip_whitespace (line : string) :
  made_of PyStr.whitespace (list_ascii_of_string line) → PyStr.strip line = "".
Proof.
  intros H. unfold PyStr.strip, PyStr.lstrip_bytes.
  by rewrite strip_left_whitespace.
Qed.

(** ** The constructor of [NewsArchiveCrawler] *)

Module Init.

Inductive InitError := TypeError | FileNotFoundError.

(** [open(known_bad_urls, encoding='UTF-8')] and the lines read from it:
    [files] gives the lines of the files that exist, by name. *)
Definition open_lines (files : string → option (list string)) (name : option string)
    : InitError + list string :=
  match name with
  | None => inl TypeError
  | Some path =>
      match files path with
      | None => inl FileNotFoundError
      | Some lines => inr lines
      end
  end.

(** Lines 30-34 of [__init__]: the value of [self.known_article_urls].
    [A] is whatever is passed as [known_article_urls]. *)
Definition known_article_urls_of {A : Type} (files : string → option (list string))
    (known_article_urls : option A) (known_bad_urls : option string)
    : InitError + gset string :=
  match known_article_urls with
  | Some _ =>
      match open_lines files known_bad_urls with
      | inl e => inl e
      | inr lines => inr (list_to_set (PyStr.strip <$> lines))
      end
  | None => inr ∅
  end.

End Init.

(** C10: [self.known_article_urls] is the set of the stripped lines of the
    file [known_bad_urls] when [known_article_urls] is not [None], and the
    empty set when it is [None] (the file is then not opened); the value
    passed as [known_article_urls] does not matter beyond that; and with
    [known_article_urls] given and [known_bad_urls = None] the constructor
    fails. A stripped line is the line without the white space (of
    Unicode, not of ASCII alone) at its two ends: the line is white space,
    the stripped line and white space again, and the stripped line neither
    starts nor ends with a white space character. A line with a no-break
    space before the URL and an em space and a line feed after it is
    stripped to the URL. *)
Theorem C10_known_article_urls_from_known_bad_urls :
  ∀ (files : string → option (list string)),
    (∀ {A : Type} (a : A) path lines,
        files path = Some lines →
        Init.known_article_urls_of files (Some a) (Some path)
        = inr (list_to_set (PyStr.strip <$> lines))) ∧
    (∀ {A : Type} known_bad_urls,
        Init.known_article_urls_of files (@None A) known_bad_urls = inr ∅) ∧
    (∀ {A B : Type} (a : A) (b : B) known_bad_urls,
        Init.known_article_urls_of files (Some a) known_bad_urls
        = Init.known_article_urls_of files (Some b) known_bad_urls) ∧
    (∀ {A : Type} (a : A),
        Init.known_article_urls_of files (Some a) None = inl Init.TypeError) ∧
    (∀ {A : Type} (known_article_urls : option A) known_bad_urls urls,
        Init.known_article_urls_of files known_article_urls known_bad_urls = inr urls →
        urls ≠ ∅ → known_article_urls ≠ None) ∧
    (∀ line : string,
        (∃ pre post,
            list_ascii_of_string line
            = pre ++ list_ascii_of_string (PyStr.strip line) ++ post ∧
            made_of PyStr.whitespace pre ∧ made_of PyStr.whitespace post) ∧
        (∀ c, c ∈ PyStr.whitespace → ¬ c `prefix_of` list_ascii_of_string (PyStr.strip line)) ∧
        (∀ c, c ∈ PyStr.whitespace → ¬ c `suffix_of` list_ascii_of_string (PyStr.strip line))) ∧
    PyStr.strip (String "194"%char (String "160"%char "http://a/")
                 +:+ String "226"%char (String "128"%char (String "131"%char ""))
                 +:+ String "010"%char "")
    = "http://a/".
Proof.
  intros files. split; [|split; [|split; [|split; [|split; [|split]]]]].
  - intros A a path lines H. unfold Init.known_article_urls_of, Init.open_lines. by rewrite H.
  - done.
  - done.
  - done.
  - intros A [a|] known_bad_urls urls H Hne; [done|].
    simpl in H. by injection H as <-.
  - intros line. apply strip_spec.
  - vm_compute. reflexivity.
Qed.


(** * Further properties of the crawlers *)

(** ** What the trace says about the sets *)

(** The article URLs downloaded and the URLs given to the converter, in order. *)
Fixpoint article_downloads {Html} (tr : list (Event Html)) : list string :=
  match tr with
  | [] => []
  | ArticleDownload url :: tr' => url :: article_downloads tr'
  | _ :: tr' => article_downloads tr'
  end.

Fixpoint converter_calls {Html} (tr : list (Event Html)) : list string :=
  match tr with
  | [] => []
  | ArticleToCorpus url _ :: tr' => url :: converter_calls tr'
  | _ :: tr' => converter_calls tr'
  end.

Lemma article_downloads_app {Html} (tr1 tr2 : list (Event Html)) :
  article_downloads (tr1 ++ tr2) = article_downloads tr1 ++ article_downloads tr2.
Proof. induction tr1 as [|[] tr1 IH]; simpl; by rewrite ?IH. Qed.

Lemma converter_calls_app {Html} (tr1 tr2 : list (Event Html)) :
  converter_calls (tr1 ++ tr2) = converter_calls tr1 ++ converter_calls tr2.
Proof. induction tr1 as [|[] tr1 IH]; simpl; by rewrite ?IH. Qed.

Lemma converter_calls_elem_of {Html} (tr : list (Event Html)) url :
  url ∈ converter_calls tr ↔ ∃ html, ArticleToCorpus url html ∈ tr.
Proof.
  induction tr as [|e tr IH].
  - simpl. split; [by intros ?%elem_of_nil|]. by intros (? & ?%elem_of_nil).
  - destruct e; simpl; rewrite ?elem_of_cons, IH; split;
      try (intros (h & [?|?]%elem_of_cons); [done|by eauto]);
      try (intros (h & ?); exists h; by right).
    + intros [->|(h & ?)]; [eexists; by left|exists h; by right].
    + intros (h & [[= -> ->]|?]%elem_of_cons); [by left|right; eauto].
Qed.

(** A run as a whole kept, step by step: an invariant of [process_url] and
    of the updates of the archive walk and of the loop on the new URLs is
    an invariant of every run. *)
Section RunInvariantByStep.
Context {World Html : Type}.
Variable env : Env World Html.
Variable settings : Settings.
Variable P : State World Html → Prop.

Hypothesis step_process : ∀ url st, P st → P (process_url env settings url st).
Hypothesis step_log : ∀ level url text st, P st → P (record_event (Log level url text) st).
Hypothesis step_new_urls : ∀ s st, P st → s ⊆ _new_urls st → P (set_new_urls s st).
Hypothesis step_archive_good :
  ∀ url html w st, P st →
    archive_download_url env (world st) url = (Some html, w) →
    P (add_good_url url (record_event (ArchiveDownload url) (set_world w st))).
Hypothesis step_archive_problematic :
  ∀ url w st, P st →
    archive_download_url env (world st) url = (None, w) →
    P (add_problematic_url url (record_event (ArchiveDownload url) (set_world w st))).

Lemma process_urls_by_step it st : P st → P (process_urls env settings it st).
Proof. unfold process_urls. revert st. induction it; simpl; auto. Qed.

Lemma walk_archive_pages_by_step fuel base next page_num st :
  P st → P (outcome_state (walk_archive_pages env settings fuel base next page_num st)).
Proof.
  revert next page_num st. induction fuel as [|fuel IH]; intros [url|] page_num st HP;
    simpl; try done.
  destruct (archive_download_url env (world st) url) as [[html|] w] eqn:Hd.
  - apply IH, process_urls_by_step. eauto.
  - destruct fuel; simpl; eauto.
Qed.

Lemma walk_archives_by_step fuel urls st :
  P st → P (outcome_state (walk_archives env settings fuel urls st)).
Proof.
  revert st. induction urls as [|url urls IH]; intros st HP; simpl; [done|].
  pose proof (walk_archive_pages_by_step fuel url (Some url) (min_pagenum settings) st HP) as H.
  unfold _gen_article_urls_from_archive_page_url_including_subpages.
  destruct (walk_archive_pages _ _ _ _ _ _ _); simpl in *; auto.
Qed.

Lemma url_iterator_by_step fuel st :
  P st → P (outcome_state (url_iterator env settings fuel st)).
Proof.
  intros HP. unfold url_iterator.
  destruct (_ =? _)%nat; simpl; [done|]. by apply walk_archives_by_step.
Qed.

Lemma log_all_by_step (l : list string) st :
  P st → P (for_each (fun url => record_event (Log ERROR url TrueNewUrl)) l st).
Proof. revert st. induction l; simpl; auto. Qed.

Lemma drain_new_urls_by_step fuel st :
  P st → P (outcome_state (drain_new_urls env settings fuel st)).
Proof.
  revert st. induction fuel as [|fuel IH]; intros st HP; simpl.
  - by case_decide.
  - case_decide; [|done].
    apply IH, process_urls_by_step, step_new_urls; [|set_solver].
    by apply log_all_by_step.
Qed.

Lemma download_gathered_new_urls_by_step fuel st :
  P st → P (outcome_state (download_gathered_new_urls env settings fuel st)).
Proof.
  intros HP. apply drain_new_urls_by_step, step_new_urls; [done|].
  intros x. rewrite elem_of_filter. tauto.
Qed.

Lemma download_and_extract_all_articles_by_step fuel st :
  P st → P (outcome_state (download_and_extract_all_articles env settings fuel st)).
Proof.
  intros HP. unfold download_and_extract_all_articles.
  pose proof (url_iterator_by_step fuel st HP) as H.
  destruct (url_iterator _ _ _ _); simpl in *; auto.
  by apply download_gathered_new_urls_by_step.
Qed.

End RunInvariantByStep.

Section Ledger.
Context {World Html : Type}.
Variable env : Env World Html.
Variable settings : Settings.

(** The sets agree with what has been done: the article URLs downloaded
    are the good and the problematic ones, each downloaded once; the
    archive URLs downloaded are the good and the problematic ones; the
    converter got good article URLs only, each once. *)
Definition ledger_ok (st : State World Html) : Prop :=
  NoDup (article_downloads (trace st)) ∧
  (∀ url, url ∈ article_downloads (trace st) ↔
          url ∈ good_article_urls st ∨ url ∈ problematic_article_urls st) ∧
  (∀ url, url ∈ archive_downloads (trace st) ↔
          url ∈ good_urls st ∨ url ∈ problematic_urls st) ∧
  NoDup (converter_calls (trace st)) ∧
  (∀ url, url ∈ converter_calls (trace st) →
          url ∈ good_article_urls st ∧
          (create_corpus settings = true)).

Lemma ledger_ok_initial known w : ledger_ok (initial_state known w).
Proof.
  repeat split; simpl; try apply NoDup_nil_2; try set_solver;
    intros H; by apply elem_of_nil in H.
Qed.

Lemma ledger_ok_process_url url st : ledger_ok st → ledger_ok (process_url env settings url st).
Proof.
  intros (Hn & Ha & Hr & Hc & Hg). apply process_url_cases.
  - intros _. unfold ledger_ok. simpl.
    rewrite article_downloads_app, archive_downloads_app, converter_calls_app. simpl.
    by rewrite !app_nil_r.
  - intros w H1 H2 _. unfold ledger_ok. simpl.
    rewrite !article_downloads_app, !archive_downloads_app, !converter_calls_app. simpl.
    rewrite !app_nil_r.
    assert (url ∉ article_downloads (trace st)) by (rewrite Ha; tauto).
    split; [|split; [|split; [done|split; [done|]]]].
    + apply NoDup_app. split; [done|]. split; [|apply NoDup_singleton].
      intros x Hx ->%list_elem_of_singleton. done.
    + intros u. rewrite elem_of_app, list_elem_of_singleton, elem_of_union, elem_of_singleton, Ha.
      tauto.
    + done.
  - intros html w H1 H2 _. rewrite for_each_admit_new.
    assert (url ∉ article_downloads (trace st)) by (rewrite Ha; tauto).
    assert (url ∉ converter_calls (trace st)) by (intros ?%Hg; tauto).
    unfold ledger_ok, converted, date_checked.
    destruct (article_date_is_ok _ _), (create_corpus settings) eqn:Hcc; simpl;
      rewrite ?article_downloads_app, ?archive_downloads_app, ?converter_calls_app; simpl;
      rewrite ?app_nil_r;
      (split; [apply NoDup_app; split; [done|]; split; [|apply NoDup_singleton];
               by intros x Hx ->%list_elem_of_singleton|]);
      (split; [intros u;
               rewrite elem_of_app, list_elem_of_singleton, elem_of_union, elem_of_singleton, Ha;
               tauto|]);
      (split; [done|]).
    + split.
      * apply NoDup_app. split; [done|]. split; [|apply NoDup_singleton].
        by intros x Hx ->%list_elem_of_singleton.
      * intros u [Hu%Hg| ->%list_elem_of_singleton]%elem_of_app; set_solver.
    + split; [done|]. intros u Hu%Hg. set_solver.
    + split; [done|]. intros u Hu%Hg. set_solver.
    + split; [done|]. intros u Hu%Hg. set_solver.
Qed.

Lemma ledger_ok_run fuel st :
  ledger_ok st →
  ledger_ok (outcome_state (download_and_extract_all_articles env settings fuel st)).
Proof.
  apply download_and_extract_all_articles_by_step; clear st.
  - apply ledger_ok_process_url.
  - intros level url text st (Hn & Ha & Hr & Hc & Hg). unfold ledger_ok. simpl.
    rewrite article_downloads_app, archive_downloads_app, converter_calls_app. simpl.
    by rewrite !app_nil_r.
  - by intros s st H _.
  - intros url html w st (Hn & Ha & Hr & Hc & Hg) _. unfold ledger_ok. simpl.
    rewrite article_downloads_app, archive_downloads_app, converter_calls_app. simpl.
    rewrite !app_nil_r. split; [done|]. split; [done|]. split; [|done].
    intros u.
    rewrite elem_of_app, list_elem_of_singleton, Hr, elem_of_union, elem_of_singleton. tauto.
  - intros url w st (Hn & Ha & Hr & Hc & Hg) _. unfold ledger_ok. simpl.
    rewrite article_downloads_app, archive_downloads_app, converter_calls_app. simpl.
    rewrite !app_nil_r. split; [done|]. split; [done|]. split; [|done].
    intros u.
    rewrite elem_of_app, list_elem_of_singleton, Hr, elem_of_union, elem_of_singleton. tauto.
Qed.

End Ledger.

(** X1: in the state any run has reached, no article URL has been
    downloaded twice, and the article URLs downloaded are exactly the good
    and the problematic article URLs. *)
Theorem X1_article_downloaded_at_most_once :
  ∀ {World Html : Type} (env : Env World Html) (settings : Settings) fuel known (w : World),
    let st := outcome_state
                (download_and_extract_all_articles env settings fuel (initial_state known w)) in
    NoDup (article_downloads (trace st)) ∧
    ∀ url, url ∈ article_downloads (trace st) ↔
           url ∈ good_article_urls st ∪ problematic_article_urls st.
Proof.
  intros World Html env settings fuel known w st.
  destruct (ledger_ok_run env settings fuel (initial_state known w)
              (ledger_ok_initial settings known w)) as (Hn & Ha & _).
  split; [exact Hn|]. intros url. rewrite elem_of_union. apply Ha.
Qed.

(** X2: in the state any run has reached, the archive page URLs that have
    been asked of the downloader are exactly the good and the problematic
    archive URLs. *)
Theorem X2_archive_urls_are_the_downloaded_pages :
  ∀ {World Html : Type} (env : Env World Html) (settings : Settings) fuel known (w : World),
    let st := outcome_state
                (download_and_extract_all_articles env settings fuel (initial_state known w)) in
    ∀ url, url ∈ archive_downloads (trace st) ↔ url ∈ good_urls st ∪ problematic_urls st.
Proof.
  intros World Html env settings fuel known w st url.
  destruct (ledger_ok_run env settings fuel (initial_state known w)
              (ledger_ok_initial settings known w)) as (_ & _ & Hr & _).
  rewrite elem_of_union. apply Hr.
Qed.

(** X3: in the state any run has reached, the converter has been called at
    most once for a URL, only for good article URLs, and not at all when
    [create_corpus] is off. *)
Theorem X3_converter_once_per_good_article :
  ∀ {World Html : Type} (env : Env World Html) (settings : Settings) fuel known (w : World),
    let st := outcome_state
                (download_and_extract_all_articles env settings fuel (initial_state known w)) in
    NoDup (converter_calls (trace st)) ∧
    (∀ url, url ∈ converter_calls (trace st) → url ∈ good_article_urls st) ∧
    (create_corpus settings = false → ∀ url html, ArticleToCorpus url html ∉ trace st).
Proof.
  intros World Html env settings fuel known w st.
  destruct (ledger_ok_run env settings fuel (initial_state known w)
              (ledger_ok_initial settings known w)) as (_ & _ & _ & Hc & Hg).
  split; [exact Hc|]. split.
  - intros url Hu. by apply Hg.
  - intros Hoff url html Hin.
    assert (url ∈ converter_calls (trace st)) as Hu
      by (apply converter_calls_elem_of; eauto).
    apply Hg in Hu as [_ Hon]. congruence.
Qed.

Lemma X3_witness :
  create_corpus scenario_b = false ∧
  ∀ url html,
    ArticleToCorpus url html ∉
      trace (outcome_state
               (download_and_extract_all_articles site_one_article scenario_b 5
                  (initial_state ∅ tt))).
Proof.
  split; [reflexivity|].
  apply (proj2 (proj2 (X3_converter_once_per_good_article site_one_article scenario_b 5 ∅ tt))).
  reflexivity.
Defined.

(** ** The sets only grow *)

Section GrowOnly.
Context {World Html : Type}.
Variable env : Env World Html.
Variable settings : Settings.
Variable st0 : State World Html.

Definition grown_from (st : State World Html) : Prop :=
  good_urls st0 ⊆ good_urls st ∧ problematic_urls st0 ⊆ problematic_urls st ∧
  good_article_urls st0 ⊆ good_article_urls st ∧
  problematic_article_urls st0 ⊆ problematic_article_urls st ∧
  known_article_urls st = known_article_urls st0.

Lemma grown_from_admit url st : grown_from st → grown_from (admit_new url st).
Proof. rewrite admit_new_spec. unfold grown_from. simpl. tauto. Qed.

Lemma grown_from_process_urls it st :
  grown_from st → grown_from (process_urls env settings it st).
Proof.
  apply process_urls_keeps; clear st; unfold grown_from; simpl;
    try solve [intros; simpl; tauto].
  - apply grown_from_admit.
  - intros url html w st (? & ? & ? & ? & ?) _ _ _. repeat split; set_solver.
  - intros url w st (? & ? & ? & ? & ?) _ _ _. repeat split; set_solver.
Qed.

Lemma grown_from_run fuel st :
  grown_from st →
  grown_from (outcome_state (download_and_extract_all_articles env settings fuel st)).
Proof.
  apply download_and_extract_all_articles_keeps; clear st; unfold grown_from; simpl;
    try solve [intros; simpl; tauto].
  - apply grown_from_admit.
  - intros url html w st (? & ? & ? & ? & ?) _ _ _. repeat split; set_solver.
  - intros url w st (? & ? & ? & ? & ?) _ _ _. repeat split; set_solver.
  - intros url html w st (? & ? & ? & ? & ?) _. repeat split; set_solver.
  - intros url w st (? & ? & ? & ? & ?) _. repeat split; set_solver.
Qed.

End GrowOnly.

(** X4: a run, started in any state and stopped anywhere, has removed no
    URL from the good and problematic sets of either crawler, and has left
    the known article URLs as they were. *)
Theorem X4_classified_sets_only_grow :
  ∀ {World Html : Type} (env : Env World Html) (settings : Settings) fuel
    (st : State World Html),
    let st' := outcome_state (download_and_extract_all_articles env settings fuel st) in
    good_urls st ⊆ good_urls st' ∧ problematic_urls st ⊆ problematic_urls st' ∧
    good_article_urls st ⊆ good_article_urls st' ∧
    problematic_article_urls st ⊆ problematic_article_urls st' ∧
    known_article_urls st' = known_article_urls st.
Proof.
  intros World Html env settings fuel st st'.
  apply (grown_from_run env settings st fuel st). by repeat split.
Qed.

(** ** Processing classifies; the loop on the new URLs ends *)

Section Convergence.
Context {World Html : Type}.
Variable env : Env World Html.
Variable settings : Settings.

Definition classified (st : State World Html) : gset string :=
  good_article_urls st ∪ problematic_article_urls st.

Definition warn_duplicates (it : list string) (st : State World Html) : State World Html :=
  for_each (fun url => record_event (Log WARNING url AlreadyDownloaded)) it st.

Lemma classified_grows it (st : State World Html) :
  classified st ⊆ classified (process_urls env settings it st).
Proof.
  destruct (grown_from_process_urls env settings st it st) as (_ & _ & ? & ? & _).
  { by repeat split. }
  unfold classified. set_solver.
Qed.

Lemma process_url_classifies url (st : State World Html) :
  url ∈ classified (process_url env settings url st).
Proof.
  apply process_url_cases; unfold classified.
  - simpl. set_solver.
  - intros. simpl. set_solver.
  - intros html w _ _ _. rewrite for_each_admit_new. unfold converted, date_checked.
    destruct (article_date_is_ok _ _), (create_corpus settings); simpl; set_solver.
Qed.

Lemma process_urls_classifies it (st : State World Html) url :
  url ∈ it → url ∈ classified (process_urls env settings it st).
Proof.
  revert st. induction it as [|a it IH]; intros st Hin; [by apply elem_of_nil in Hin|].
  apply elem_of_cons in Hin as [->|Hin].
  - change (process_urls env settings (a :: it) st)
      with (process_urls env settings it (process_url env settings a st)).
    apply classified_grows, process_url_classifies.
  - by apply IH.
Qed.

Lemma warn_duplicates_sets it (st : State World Html) :
  good_article_urls (warn_duplicates it st) = good_article_urls st ∧
  problematic_article_urls (warn_duplicates it st) = problematic_article_urls st ∧
  _new_urls (warn_duplicates it st) = _new_urls st ∧
  article_downloads (trace (warn_duplicates it st)) = article_downloads (trace st).
Proof.
  revert st. induction it as [|a it IH]; intros st; [done|].
  change (warn_duplicates (a :: it) st)
    with (warn_duplicates it (record_event (Log WARNING a AlreadyDownloaded) st)).
  destruct (IH (record_event (Log WARNING a AlreadyDownloaded) st)) as (-> & -> & -> & ->).
  simpl. rewrite article_downloads_app. simpl. by rewrite app_nil_r.
Qed.

Lemma process_urls_all_duplicates it (st : State World Html) :
  (∀ url, url ∈ it → url ∈ classified st) →
  process_urls env settings it st = warn_duplicates it st.
Proof.
  revert st. induction it as [|a it IH]; intros st H; [done|].
  change (process_urls env settings (a :: it) st)
    with (process_urls env settings it (process_url env settings a st)).
  rewrite process_url_duplicate.
  - apply IH. intros url Hu. unfold classified. simpl. apply H. by right.
  - apply elem_of_union, H. by left.
Qed.

(** The links of every article lie in [universe]. *)
Variable universe : gset string.
Hypothesis links_in_universe :
  ∀ w url html w',
    article_download_url env w url = (Some html, w') →
    ∀ link, link ∈ extract_article_urls_from_page env html settings → link ∈ universe.

Lemma new_urls_in_universe_process_url url (st : State World Html) :
  _new_urls st ⊆ universe → _new_urls (process_url env settings url st) ⊆ universe.
Proof.
  intros H. apply process_url_cases; try done.
  intros html w _ _ Hd. rewrite for_each_admit_new.
  unfold converted, date_checked.
  destruct (article_date_is_ok _ _), (create_corpus settings); simpl;
    intros x [?|[_ Hx%elem_of_list_to_set]%elem_of_filter]%elem_of_union;
    eauto using links_in_universe.
Qed.

Lemma new_urls_in_universe_process_urls it (st : State World Html) :
  _new_urls st ⊆ universe → _new_urls (process_urls env settings it st) ⊆ universe.
Proof.
  unfold process_urls. revert st. induction it as [|a it IH]; intros st H; [done|].
  simpl. by apply IH, new_urls_in_universe_process_url.
Qed.

Lemma log_true_new_sets (l : list string) (st : State World Html) :
  let st' := for_each (fun url => record_event (Log ERROR url TrueNewUrl)) l st in
  classified st' = classified st ∧ _new_urls st' = _new_urls st.
Proof.
  revert st. induction l as [|a l IH]; intros st; [done|].
  simpl. by destruct (IH (record_event (Log ERROR a TrueNewUrl) st)) as (-> & ->).
Qed.

Lemma drain_new_urls_finishes fuel (st : State World Html) :
  _new_urls st ⊆ universe →
  (size (universe ∖ classified st) < fuel)%nat →
  is_finished (drain_new_urls env settings fuel st) = true.
Proof.
  revert st. induction fuel as [|fuel IH]; intros st Hu Hs; [lia|].
  destruct (decide (_new_urls st = ∅)) as [He|Hne].
  { by rewrite drain_new_urls_empty. }
  rewrite drain_new_urls_step by done.
  set (l := iter_set env (_new_urls st)).
  set (st1 := set_new_urls ∅ _).
  assert (∀ url, url ∈ l ↔ url ∈ _new_urls st) as Hl.
  { intros url. unfold l. by rewrite (iter_set_perm env), elem_of_elements. }
  assert (classified st1 = classified st) as Hc1.
  { unfold st1, classified. simpl.
    destruct (log_true_new_sets l st) as [Hc _]. apply Hc. }
  destruct (decide (Forall (fun url => url ∈ classified st) l)) as [Hall|Hsome].
  - rewrite process_urls_all_duplicates.
    + rewrite drain_new_urls_empty; [done|].
      by destruct (warn_duplicates_sets l st1) as (_ & _ & -> & _).
    + intros url Hin. rewrite Hc1. by eapply Forall_forall in Hall.
  - apply not_Forall_Exists, Exists_exists in Hsome as (url & Hin & Hno); [|apply _].
    apply IH.
    + by apply new_urls_in_universe_process_urls.
    + assert (universe ∖ classified (process_urls env settings l st1) ⊂ universe ∖ classified st)
        as Hlt; [|apply subset_size in Hlt; lia].
      pose proof (classified_grows l st1) as Hg. rewrite Hc1 in Hg.
      pose proof (process_urls_classifies l st1 url Hin) as Hin'.
      apply Hl, Hu in Hin. set_solver.
Qed.

Lemma download_gathered_new_urls_finishes fuel (st : State World Html) :
  _new_urls st ⊆ universe → (size universe < fuel)%nat →
  is_finished (download_gathered_new_urls env settings fuel st) = true.
Proof.
  intros Hu Hs. apply drain_new_urls_finishes.
  - intros x [? _]%recheck_new_urls_spec. by apply Hu.
  - assert (size (universe ∖ classified (recheck_new_urls st)) ≤ size universe)%nat
      by (apply subseteq_size; set_solver). lia.
Qed.

Lemma download_gathered_new_urls_ends fuel (st : State World Html) :
  _new_urls st ⊆ universe → (size universe < fuel)%nat →
  ∃ st', download_gathered_new_urls env settings fuel st = Finished st' ∧ _new_urls st' = ∅.
Proof.
  intros Hu Hs.
  pose proof (download_gathered_new_urls_finishes fuel st Hu Hs) as H.
  assert (download_gathered_new_urls env settings fuel st
          = Finished (outcome_state (download_gathered_new_urls env settings fuel st))) as E
    by (by destruct (download_gathered_new_urls env settings fuel st)).
  eexists. split; [exact E|].
  unfold download_gathered_new_urls in E. by apply drain_new_urls_finished in E.
Qed.

End Convergence.

(** X5: after [process_urls] every URL it was given is a good or a
    problematic article URL; so processing the same URLs again only logs
    the duplicate warning for each of them: nothing is downloaded and no
    set changes. *)
Theorem X5_process_urls_classifies_every_url :
  ∀ {World Html : Type} (env : Env World Html) (settings : Settings) it
    (st : State World Html),
    let st' := process_urls env settings it st in
    (∀ url, url ∈ it → url ∈ good_article_urls st' ∪ problematic_article_urls st') ∧
    process_urls env settings it st' = warn_duplicates it st' ∧
    article_downloads (trace (process_urls env settings it st')) = article_downloads (trace st') ∧
    good_article_urls (process_urls env settings it st') = good_article_urls st' ∧
    problematic_article_urls (process_urls env settings it st') = problematic_article_urls st' ∧
    _new_urls (process_urls env settings it st') = _new_urls st'.
Proof.
  intros World Html env settings it st st'.
  assert (∀ url, url ∈ it → url ∈ classified st') as Hc
    by (intros url; apply process_urls_classifies).
  split; [exact Hc|].
  rewrite (process_urls_all_duplicates env settings it st' Hc).
  split; [done|].
  by destruct (warn_duplicates_sets it st') as (Hg & Hp & Hn & Ht).
Qed.

Lemma is_finished_outcome {World Html} (o : Outcome World Html) :
  is_finished o = true → o = Finished (outcome_state o).
Proof. by destruct o. Qed.

(** X6: when the links of every article lie in a finite set of URLs, and
    so do the new URLs, [download_gathered_new_urls] ends, within as many
    iterations as the set has elements plus one, and leaves no new URL. *)
Theorem X6_drain_ends_on_finite_link_set :
  ∀ {World Html : Type} (env : Env World Html) (settings : Settings) (universe : gset string),
    (∀ w url html w',
        article_download_url env w url = (Some html, w') →
        ∀ link, link ∈ extract_article_urls_from_page env html settings → link ∈ universe) →
    ∀ fuel (st : State World Html),
      _new_urls st ⊆ universe → (size universe < fuel)%nat →
      ∃ st', download_gathered_new_urls env settings fuel st = Finished st' ∧ _new_urls st' = ∅.
Proof.
  intros World Html env settings universe Hlinks fuel st Hu Hs.
  by apply (download_gathered_new_urls_ends env settings universe Hlinks).
Qed.

Definition one_new_url : State unit Site.Page :=
  set_new_urls {["https://x/a"]} (initial_state ∅ tt).

Lemma site_one_article_links :
  ∀ w url html w',
    article_download_url site_one_article w url = (Some html, w') →
    ∀ link, link ∈ extract_article_urls_from_page site_one_article html scenario_b →
            link ∈ ({["https://x/a"]} : gset string).
Proof.
  intros w url html w' [= <- _] link Hl. simpl in Hl.
  apply list_elem_of_singleton in Hl. set_solver.
Qed.

Lemma X6_witness :
  ∃ st', download_gathered_new_urls site_one_article scenario_b 2 one_new_url = Finished st' ∧
         _new_urls st' = ∅.
Proof.
  apply (X6_drain_ends_on_finite_link_set site_one_article scenario_b {["https://x/a"]}
           site_one_article_links 2%nat one_new_url).
  - unfold one_new_url. simpl. set_solver.
  - rewrite size_singleton. lia.
Defined.

Section WholeRun.
Context {World Html : Type}.
Variable env : Env World Html.
Variable settings : Settings.

Lemma walk_finishes_below_max base m fuel (st : State World Html) :
  next_url_by_regex settings = false → max_pagenum settings = Some m →
  (1 + Z.to_nat (m - min_pagenum settings) ≤ fuel)%nat →
  is_finished
    (_gen_article_urls_from_archive_page_url_including_subpages env settings fuel base st) = true.
Proof.
  intros Hre Hm Hfuel. destruct fuel as [|n]; [lia|].
  apply (walk_finishes env settings base Hre (fun _ _ => True) m); [done| |done|lia].
  intros page_num url w html w' known Hle _ Hd.
  destruct (_extract_next_page_url _ _ _ _ _ _ _ _ _ _ _) as [url'|] eqn:En; [|done].
  apply _extract_next_page_url_no_regex in En as (_ & _ & Hlt).
  specialize (Hlt m Hm). lia.
Qed.

Lemma walk_archives_finishes fuel urls (st : State World Html) :
  (∀ base st,
      is_finished
        (_gen_article_urls_from_archive_page_url_including_subpages env settings fuel base st)
      = true) →
  is_finished (walk_archives env settings fuel urls st) = true.
Proof.
  intros H. revert st. induction urls as [|url urls IH]; intros st; [done|].
  simpl. specialize (H url st). apply is_finished_outcome in H. rewrite H. apply IH.
Qed.

End WholeRun.

(** X7: when the next page is not taken from a link in the page,
    [max_pagenum] is set, there is an archive base URL, and the links of
    every article lie in a finite set of URLs, the whole run ends, given
    fuel for [max_pagenum - min_pagenum + 1] archive pages per base URL and
    for one more iteration than the set has elements, and it leaves no new
    URL. *)
Theorem X7_run_ends :
  ∀ {World Html : Type} (env : Env World Html) (settings : Settings) (universe : gset string) m,
    next_url_by_regex settings = false → max_pagenum settings = Some m →
    archive_page_urls settings ≠ [] →
    (∀ w url html w',
        article_download_url env w url = (Some html, w') →
        ∀ link, link ∈ extract_article_urls_from_page env html settings → link ∈ universe) →
    ∀ fuel (st : State World Html),
      _new_urls st ⊆ universe →
      (1 + Z.to_nat (m - min_pagenum settings) ≤ fuel)%nat → (size universe < fuel)%nat →
      ∃ st',
        download_and_extract_all_articles env settings fuel st = Finished st' ∧
        _new_urls st' = ∅.
Proof.
  intros World Html env settings universe m Hre Hm Hne Hlinks fuel st Hu Hf1 Hf2.
  unfold download_and_extract_all_articles.
  assert (is_finished (url_iterator env settings fuel st) = true) as H1.
  { rewrite url_iterator_walks by done. apply walk_archives_finishes.
    intros base st1. by apply (walk_finishes_below_max env settings base m). }
  apply is_finished_outcome in H1.
  assert (_new_urls (outcome_state (url_iterator env settings fuel st)) ⊆ universe) as Hu1.
  { apply (url_iterator_by_step env settings (fun s => _new_urls s ⊆ universe)).
    - intros url s. by apply new_urls_in_universe_process_url.
    - by intros.
    - by intros.
    - done. }
  rewrite H1.
  by apply (download_gathered_new_urls_ends env settings universe Hlinks).
Qed.

Lemma X7_witness :
  ∃ st',
    download_and_extract_all_articles site_one_article scenario_b 3 (initial_state ∅ tt)
    = Finished st' ∧ _new_urls st' = ∅.
Proof.
  apply (X7_run_ends site_one_article scenario_b {["https://x/a"]} 3
           eq_refl eq_refl).
  - vm_compute. discriminate.
  - apply site_one_article_links.
  - simpl. set_solver.
  - vm_compute. lia.
  - rewrite size_singleton. lia.
Defined.

(** ** The archive walk, further *)

Section ArchiveCoverage.
Context {World Html : Type}.
Variable env : Env World Html.
Variable settings : Settings.
Variable url : string.

Definition asked_for (st : State World Html) : Prop :=
  url ∈ good_urls st ∪ problematic_urls st.

Lemma asked_for_process_urls it st : asked_for st → asked_for (process_urls env settings it st).
Proof.
  unfold asked_for.
  destruct (process_urls_archive_side env settings it st) as (-> & -> & _). done.
Qed.

Lemma asked_for_walk_archive_pages fuel base next page_num st :
  asked_for st →
  asked_for (outcome_state (walk_archive_pages env settings fuel base next page_num st)).
Proof.
  apply walk_archive_pages_by_step; clear st.
  - intros u st. apply (asked_for_process_urls [u]).
  - intros u html w st H _. unfold asked_for in *. simpl. set_solver.
  - intros u w st H _. unfold asked_for in *. simpl. set_solver.
Qed.

Lemma asked_for_walk_archives fuel urls st :
  asked_for st → asked_for (outcome_state (walk_archives env settings fuel urls st)).
Proof.
  apply walk_archives_by_step; clear st.
  - intros u st. apply (asked_for_process_urls [u]).
  - intros u html w st H _. unfold asked_for in *. simpl. set_solver.
  - intros u w st H _. unfold asked_for in *. simpl. set_solver.
Qed.

Lemma asked_for_first_page fuel base page_num st st' :
  walk_archive_pages env settings fuel base (Some url) page_num st = Finished st' →
  asked_for st'.
Proof.
  destruct fuel as [|fuel]; [done|]. intros H.
  assert (st' = outcome_state
                  (walk_archive_pages env settings (S fuel) base (Some url) page_num st)) as ->
    by by rewrite H.
  clear H.
  destruct (archive_download_url env (world st) url) as [[html|] w] eqn:Hd.
  - rewrite (walk_archive_pages_downloaded _ _ _ _ _ _ _ _ _ Hd).
    apply asked_for_walk_archive_pages, asked_for_process_urls.
    unfold asked_for. simpl. set_solver.
  - rewrite (walk_archive_pages_failed _ _ _ _ _ _ _ _ Hd).
    unfold asked_for. simpl. set_solver.
Qed.

Lemma asked_for_base fuel urls st st' :
  walk_archives env settings fuel urls st = Finished st' → url ∈ urls → asked_for st'.
Proof.
  revert st. induction urls as [|base urls IH]; intros st H Hin; [by apply elem_of_nil in Hin|].
  simpl in H. unfold _gen_article_urls_from_archive_page_url_including_subpages in H.
  destruct (walk_archive_pages env settings fuel base (Some base) (min_pagenum settings) st)
    as [st1| |] eqn:E; try done.
  apply elem_of_cons in Hin as [Heq|Hin]; [|by eapply IH].
  subst base. apply asked_for_first_page in E.
  assert (st' = outcome_state (walk_archives env settings fuel urls st1)) as ->
    by by rewrite H.
  by apply asked_for_walk_archives.
Qed.

End ArchiveCoverage.

(** X8: when the walk of the archive is over, no archive base URL has been
    skipped: each of them is a good or a problematic archive URL, also
    where the walk of an earlier base URL ended on a failed download. *)
Theorem X8_every_base_url_is_asked_for :
  ∀ {World Html : Type} (env : Env World Html) (settings : Settings) fuel
    (st st' : State World Html),
    url_iterator env settings fuel st = Finished st' →
    ∀ base, base ∈ archive_page_urls settings →
            base ∈ good_urls st' ∪ problematic_urls st'.
Proof.
  intros World Html env settings fuel st st' H base Hin.
  unfold url_iterator in H.
  destruct (length (archive_page_urls settings) =? 0)%nat; [done|].
  by apply (asked_for_base env settings base fuel (archive_page_urls settings) st st').
Qed.

Lemma X8_witness :
  "https://x/?p=" ∈
    good_urls (outcome_state (url_iterator site_one_article scenario_b 3 (initial_state ∅ tt)))
    ∪ problematic_urls
        (outcome_state (url_iterator site_one_article scenario_b 3 (initial_state ∅ tt))).
Proof.
  apply (X8_every_base_url_is_asked_for site_one_article scenario_b 3 (initial_state ∅ tt)).
  - apply is_finished_outcome. vm_compute. reflexivity.
  - vm_compute. left.
Defined.

Section FollowLinks.
Context {World Html : Type}.
Variable env : Env World Html.
Variable settings : Settings.
Hypothesis by_regex : next_url_by_regex settings = true.

(** A chain of archive pages: each downloads, whenever asked for, to the
    page given, whose next-page link is the URL of the page after it; the
    last page has no next-page link. *)
Fixpoint linked_pages (pages : list (string * Html)) : Prop :=
  match pages with
  | [] => True
  | (url, html) :: rest =>
      (∀ w, ∃ w', archive_download_url env w url = (Some html, w')) ∧
      extract_next_page_url env html settings = fst <$> head rest ∧
      linked_pages rest
  end.

Lemma walk_linked_pages pages fuel base page_num (st : State World Html) :
  linked_pages pages → (length pages ≤ fuel)%nat →
  ∃ st',
    walk_archive_pages env settings fuel base (fst <$> head pages) page_num st = Finished st' ∧
    archive_downloads (trace st') = archive_downloads (trace st) ++ (fst <$> pages).
Proof.
  revert fuel page_num st. induction pages as [|[url html] rest IH]; intros fuel page_num st Hl Hf.
  - exists st. simpl. rewrite walk_archive_pages_stop, app_nil_r. done.
  - destruct fuel as [|fuel]; [simpl in Hf; lia|].
    destruct Hl as (Hd & Hn & Hrest).
    destruct (Hd (world st)) as (w' & Hd').
    change (fst <$> head ((url, html) :: rest)) with (Some url).
    rewrite (walk_archive_pages_downloaded _ _ _ _ _ _ _ _ _ Hd'), by_regex.
    unfold _extract_next_page_url. rewrite Hn.
    set (st1 := add_good_url url _).
    destruct (process_urls_archive_side env settings
                (extract_article_urls_from_page env html settings) st1) as (_ & _ & _ & Ht).
    destruct (IH fuel (page_num + 1)
                (process_urls env settings (extract_article_urls_from_page env html settings) st1)
                Hrest) as (st' & -> & Ht').
    { simpl in Hf. lia. }
    exists st'. split; [done|].
    rewrite Ht', Ht. simpl. rewrite archive_downloads_app. simpl.
    by rewrite <- app_assoc.
Qed.

End FollowLinks.

(** X9: when the next page is taken from a link in the page, the walk of
    a base URL downloads the chain of pages those links make, in order,
    and ends at the first page without such a link, whatever [max_pagenum]
    and the known article URLs are; in particular it downloads one page
    when the first page has no next-page link. *)
Theorem X9_walk_follows_next_page_links :
  ∀ {World Html : Type} (env : Env World Html) (settings : Settings),
    next_url_by_regex settings = true →
    ∀ base html rest fuel (st : State World Html),
      linked_pages env settings ((base, html) :: rest) →
      (S (length rest) ≤ fuel)%nat →
      ∃ st',
        _gen_article_urls_from_archive_page_url_including_subpages env settings fuel base st
        = Finished st' ∧
        archive_downloads (trace st')
        = archive_downloads (trace st) ++ base :: (fst <$> rest).
Proof.
  intros World Html env settings Hre base html rest fuel st Hl Hf.
  apply (walk_linked_pages env settings Hre ((base, html) :: rest) fuel base
           (min_pagenum settings) st Hl Hf).
Qed.

Lemma X9_witness :
  ∃ st',
    _gen_article_urls_from_archive_page_url_including_subpages site_linked_archive
      (by_id_regex "A") 2 "A" (initial_state ∅ tt) = Finished st' ∧
    archive_downloads (trace st') = ["A"; "B"].
Proof.
  apply (X9_walk_follows_next_page_links site_linked_archive (by_id_regex "A") eq_refl "A"
           {| Site.links := ["a1"]; Site.next_page := Some "B"; Site.published := None |}
           [("B", {| Site.links := []; Site.next_page := None; Site.published := None |})]
           2%nat (initial_state ∅ tt)).
  - repeat split; intros w; by exists w.
  - simpl. lia.
Defined.

(** X10: with the page-number rule and known article URLs loaded, the walk
    goes on to the next page only from a page that shares more than
    [same_article_url_threshold] URLs with the known ones: from a page
    with fewer of them there is no next page, and with a threshold no
    smaller than the number of known article URLs there never is one. *)
Theorem X10_no_next_page_without_known_urls :
  ∀ {World Html : Type} (env : Env World Html) (settings : Settings)
    (known : gset string) html base article_urls page_num max_pagenum use_pagenum threshold,
    known ≠ ∅ →
    (Z.of_nat (size (known ∩ list_to_set article_urls)) ≤ threshold ∨
     Z.of_nat (size known) ≤ threshold) →
    _extract_next_page_url env settings known html base article_urls page_num max_pagenum
      false use_pagenum threshold = None.
Proof.
  intros World Html env settings known html base article_urls page_num max_pagenum
    use_pagenum threshold Hne Hle.
  destruct use_pagenum; [|done].
  apply _extract_next_page_url_pagenum. intros (_ & [?|Hlt] & _); [done|].
  destruct Hle as [?|Hle]; [lia|].
  assert (size (known ∩ list_to_set article_urls) ≤ size known)%nat
    by (apply subseteq_size; set_solver).
  lia.
Qed.

Lemma X10_witness :
  _extract_next_page_url site_one_article scenario_b {["https://x/old"]}
    {| Site.links := ["https://x/a"]; Site.next_page := None; Site.published := None |}
    "https://x/?p=" ["https://x/a"] 1 (Some 3) false true 0 = None.
Proof.
  apply X10_no_next_page_without_known_urls.
  - apply non_empty_singleton_L.
  - left. vm_compute. discriminate.
Defined.

(** ** The archive base URLs, further *)

(** X11: with id mode on, the list of archive base URLs is never empty, so
    [url_iterator] does not raise: it is the template alone, as it is
    written, when date mode is off or its date range is empty, and the
    date-mode URLs, without the template, when date mode gives any. *)
Theorem X11_id_mode_base_url :
  ∀ s : Settings,
    archive_page_urls_by_id s = true →
    archive_page_urls s ≠ [] ∧
    (archive_page_urls_by_date s = false ∨ date_until s < date_from s →
     archive_page_urls s = [archive_url_format s]) ∧
    (archive_page_urls_by_date s = true → date_from s ≤ date_until s →
     archive_page_urls s = date_mode_urls s).
Proof.
  intros s Hid. split; [|split].
  - intros H%archive_page_urls_nil. destruct H as [_ H]. congruence.
  - intros H. unfold archive_page_urls. rewrite Hid.
    destruct (archive_page_urls_by_date s); [|done].
    destruct H as [?|H]; [done|]. apply date_mode_urls_nil in H. by rewrite H.
  - intros Hd Hle. apply archive_page_urls_date_mode; auto.
Qed.

Lemma X11_witness : archive_page_urls scenario_b = ["https://x/?p="].
Proof.
  apply (proj1 (proj2 (X11_id_mode_base_url scenario_b eq_refl))). by left.
Defined.

(** Whether a character occurs in a string. *)
Fixpoint occurs (c : ascii) (s : string) : bool :=
  match s with
  | EmptyString => false
  | String c' s' => Ascii.eqb c c' || occurs c s'
  end.

Lemma replace_without_first_char c old new s :
  occurs c s = false → PyStr.replace (String c old) new s = s.
Proof.
  unfold PyStr.replace. induction s as [|c' s IH]; [done|].
  simpl. intros [Hc Hs]%orb_false_iff.
  rewrite Ascii.eqb_sym in Hc.
  destruct (Ascii.eqb_spec c' c) as [->|Hne]; [done|].
  destruct (ascii_dec c c') as [->|_]; [done|].
  by rewrite IH.
Qed.

Lemma _gen_archive_page_url_from_date_no_placeholder curr_date url_format :
  occurs "#" url_format = false →
  _gen_archive_page_url_from_date curr_date url_format = url_format.
Proof.
  intros H. unfold _gen_archive_page_url_from_date.
  rewrite (replace_without_first_char "#"%char "year") by done.
  rewrite (replace_without_first_char "#"%char "month") by done.
  by rewrite (replace_without_first_char "#"%char "day").
Qed.

(** X12: a template without the character [#] has no placeholder to fill:
    every date gives the template itself, and date mode over a date range
    that is not empty gives the template as the one archive base URL. *)
Theorem X12_template_without_placeholder :
  ∀ s : Settings,
    occurs "#" (archive_url_format s) = false →
    (∀ d, _gen_archive_page_url_from_date d (archive_url_format s) = archive_url_format s) ∧
    (archive_page_urls_by_date s = true → date_from s ≤ date_until s →
     archive_page_urls s = [archive_url_format s]).
Proof.
  intros s H. split.
  - intros d. by apply _gen_archive_page_url_from_date_no_placeholder.
  - intros Hd Hle. rewrite archive_page_urls_date_mode by auto.
    pose proof (date_mode_urls_NoDup s) as Hn.
    assert (∀ url, url ∈ date_mode_urls s ↔ url = archive_url_format s) as Hin.
    { intros url. rewrite date_mode_urls_elem_of. split.
      - intros (d & _ & ->). by apply _gen_archive_page_url_from_date_no_placeholder.
      - intros ->. exists (date_from s). split; [lia|].
        symmetry. by apply _gen_archive_page_url_from_date_no_placeholder. }
    destruct (date_mode_urls s) as [|u [|v l]].
    + exfalso. eapply elem_of_nil, Hin. reflexivity.
    + f_equal. apply Hin. left.
    + exfalso. apply NoDup_cons in Hn as [Hn _]. apply Hn.
      assert (u = archive_url_format s) as -> by (apply Hin; left).
      assert (v = archive_url_format s) as -> by (apply Hin; right; left).
      left.
Qed.

Definition by_date_plain : Settings := {|
  archive_page_urls_by_date := true;
  archive_page_urls_by_id := false;
  date_from := 737425;
  date_until := 737455;
  archive_url_format := "https://x/archive";
  go_reverse_in_archive := true;
  min_pagenum := 0;
  max_pagenum := None;
  next_url_by_regex := true;
  next_url_by_pagenum := false;
  same_article_url_threshold := 0;
  create_corpus := true
|}.

Lemma X12_witness : archive_page_urls by_date_plain = ["https://x/archive"].
Proof.
  apply (proj2 (X12_template_without_placeholder by_date_plain eq_refl) eq_refl).
  vm_compute. discriminate.
Defined.

(** ** The two [__del__] methods *)

(** What each [__del__] gives to the logger: the level and the message,
    [';'.join((url, text))], one line per URL of the set gone through. *)
Definition archive_crawler_del {World Html} (env : Env World Html) (st : State World Html)
    : list (Level * string) :=
  ((fun good_url => (INFO, String.concat ";" [good_url; "GOOD ARCHIVE URL"]))
     <$> iter_set env (good_urls st))
  ++ ((fun problematic_url => (INFO, String.concat ";" [problematic_url; "PROBLEMATIC ARCHIVE URL"]))
        <$> iter_set env (problematic_urls st)).

Definition article_crawler_del {World Html} (env : Env World Html) (st : State World Html)
    : list (Level * string) :=
  (fun url => (INFO, String.concat ";" [url; "NEW URL"])) <$> iter_set env (_new_urls st).

Lemma iter_set_elem_of {World Html} (env : Env World Html) (s : gset string) url :
  url ∈ iter_set env s ↔ url ∈ s.
Proof. by rewrite (iter_set_perm env), elem_of_elements. Qed.

Lemma iter_set_length {World Html} (env : Env World Html) (s : gset string) :
  length (iter_set env s) = size s.
Proof. by rewrite (iter_set_perm env). Qed.

Lemma run_finished_no_new_url {World Html} (env : Env World Html) settings fuel
    (st st' : State World Html) :
  download_and_extract_all_articles env settings fuel st = Finished st' → _new_urls st' = ∅.
Proof.
  unfold download_and_extract_all_articles.
  destruct (url_iterator env settings fuel st); try done.
  apply drain_new_urls_finished.
Qed.

(** X13: after a run that has ended, [NewsArticleCrawler.__del__] logs no
    [NEW URL] line, and [NewsArchiveCrawler.__del__] logs one line per good
    and one per problematic archive URL, among them a line for every
    archive page URL that was asked of the downloader. *)
Theorem X13_del_logs_after_a_run :
  ∀ {World Html : Type} (env : Env World Html) (settings : Settings) fuel known (w : World)
    (st' : State World Html),
    download_and_extract_all_articles env settings fuel (initial_state known w) = Finished st' →
    article_crawler_del env st' = [] ∧
    length (archive_crawler_del env st')
    = (size (good_urls st') + size (problematic_urls st'))%nat ∧
    ∀ url, url ∈ archive_downloads (trace st') →
           (INFO, url +:+ ";GOOD ARCHIVE URL") ∈ archive_crawler_del env st' ∨
           (INFO, url +:+ ";PROBLEMATIC ARCHIVE URL") ∈ archive_crawler_del env st'.
Proof.
  intros World Html env settings fuel known w st' H. split; [|split].
  - unfold article_crawler_del. rewrite (run_finished_no_new_url _ _ _ _ _ H).
    assert (iter_set env ∅ = []) as ->; [|done].
    apply Permutation_nil. rewrite (iter_set_perm env). by rewrite elements_empty.
  - unfold archive_crawler_del. by rewrite length_app, !length_fmap, !iter_set_length.
  - intros url Hin.
    destruct (ledger_ok_run env settings fuel (initial_state known w)
                (ledger_ok_initial settings known w)) as (_ & _ & Hr & _).
    rewrite H in Hr. simpl in Hr. apply Hr in Hin.
    unfold archive_crawler_del.
    destruct Hin as [Hin|Hin]; [left|right]; apply elem_of_app; [left|right];
      apply list_elem_of_fmap; exists url; (split; [done|]); by apply iter_set_elem_of.
Qed.

Lemma X13_witness :
  article_crawler_del site_one_article
    (outcome_state
       (download_and_extract_all_articles site_one_article scenario_b 3 (initial_state ∅ tt)))
  = [].
Proof.
  apply (X13_del_logs_after_a_run site_one_article scenario_b 3 ∅ tt).
  apply is_finished_outcome. vm_compute. reflexivity.
Defined.

(** ** The known article URLs, as read *)

(** X14: a known article URL, as the constructor reads it, has no white
    space (of Unicode) at either end, so not the line end of the file;
    reading it through [strip] again changes nothing; and a line of white
    space alone gives the empty string as a known article URL. *)
Theorem X14_known_article_urls_are_stripped :
  ∀ {A : Type} (files : string → option (list string)) (a : A) path urls,
    Init.known_article_urls_of files (Some a) (Some path) = inr urls →
    (∀ url, url ∈ urls →
            (∀ c, c ∈ PyStr.whitespace → ¬ c `prefix_of` list_ascii_of_string url) ∧
            (∀ c, c ∈ PyStr.whitespace → ¬ c `suffix_of` list_ascii_of_string url) ∧
            PyStr.strip url = url) ∧
    (∀ lines line,
        files path = Some lines → line ∈ lines →
        made_of PyStr.whitespace (list_ascii_of_string line) → "" ∈ urls).
Proof.
  intros A files a path urls H.
  unfold Init.known_article_urls_of, Init.open_lines in H.
  destruct (files path) as [lines|] eqn:E; [|done].
  injection H as <-. split.
  - intros url (line & -> & _)%elem_of_list_to_set%list_elem_of_fmap.
    destruct (strip_spec line) as (_ & Hp & Hs).
    split; [done|]. split; [done|]. by apply strip_fixed.
  - intros lines' line [= <-] Hin Hs.
    apply elem_of_list_to_set, list_elem_of_fmap. exists line. split; [|done].
    symmetry. by apply strip_whitespace.
Qed.

Definition known_file (path : string) : option (list string) :=
  if String.eqb path "known.txt"
  then Some [" https://x/a" +:+ String "010"%char ""; String "010"%char ""]
  else None.

Lemma X14_witness :
  "" ∈ (list_to_set
          (PyStr.strip <$> [" https://x/a" +:+ String "010"%char ""; String "010"%char ""])
        : gset string).
Proof.
  pose proof (X14_known_article_urls_are_stripped (A := unit) known_file tt "known.txt" _
                eq_refl) as [_ H].
  apply (H _ (String "010"%char "") eq_refl); [right; left|].
  change (list_ascii_of_string (String "010"%char "")) with (["010"%char] ++ []).
  constructor; [|constructor].
  apply (bool_decide_unpack _). vm_compute. exact I.
Defined.

(** ** Order and number of the archive base URLs *)

Definition with_reverse (reverse : bool) (s : Settings) : Settings := {|
  archive_page_urls_by_date := archive_page_urls_by_date s;
  archive_page_urls_by_id := archive_page_urls_by_id s;
  date_from := date_from s;
  date_until := date_until s;
  archive_url_format := archive_url_format s;
  go_reverse_in_archive := reverse;
  min_pagenum := min_pagenum s;
  max_pagenum := max_pagenum s;
  next_url_by_regex := next_url_by_regex s;
  next_url_by_pagenum := next_url_by_pagenum s;
  same_article_url_threshold := same_article_url_threshold s;
  create_corpus := create_corpus s
|}.

Lemma StronglySorted_flip_reverse {A} (R : relation A) (l : list A) :
  StronglySorted R l → StronglySorted (flip R) (reverse l).
Proof.
  induction 1 as [|x l Hl IH Hx]; [constructor|].
  rewrite reverse_cons. apply StronglySorted_app_2; [|done|repeat constructor].
  intros y z Hy ->%list_elem_of_singleton. rewrite elem_of_reverse in Hy.
  unfold flip. rewrite Forall_forall in Hx. by apply Hx.
Qed.

(** X15: [go_reverse_in_archive] reverses the order of the date-mode URLs
    and changes nothing else; and over a date range that is not empty
    there is at least one of them and at most one per day. *)
Theorem X15_reverse_and_count_of_date_mode_urls :
  ∀ s : Settings,
    date_mode_urls (with_reverse true s) = reverse (date_mode_urls (with_reverse false s)) ∧
    (date_from s ≤ date_until s →
     (1 ≤ length (date_mode_urls s))%nat ∧
     Z.of_nat (length (date_mode_urls s)) ≤ date_until s - date_from s + 1).
Proof.
  intros s. split.
  - apply (StronglySorted_unique (flip String.le)).
    + apply (date_mode_urls_sorted (with_reverse true s)).
    + apply StronglySorted_flip_reverse, (date_mode_urls_sorted (with_reverse false s)).
    + rewrite reverse_Permutation. unfold date_mode_urls.
      rewrite !sort_urls_Permutation. reflexivity.
  - intros Hle. split.
    + destruct (date_mode_urls s) eqn:E; [|simpl; lia].
      apply date_mode_urls_nil in E. lia.
    + unfold date_mode_urls. rewrite sort_urls_Permutation.
      set (l := _ <$> py_range _).
      assert (size (list_to_set l : gset string) ≤ length l)%nat as H.
      { clearbody l. induction l as [|x l IH]; [by rewrite list_to_set_nil, size_empty|].
        rewrite list_to_set_cons. cbn [length].
        destruct (decide (x ∈ (list_to_set l : gset string))) as [Hx|Hx].
        - assert ({[x]} ∪ list_to_set l = (list_to_set l : gset string)) as -> by set_solver.
          lia.
        - rewrite size_union by set_solver. rewrite size_singleton. lia. }
      change (size (list_to_set l : gset string))
        with (length (elements (list_to_set l : gset string))) in H.
      unfold l in H. rewrite length_fmap in H. unfold py_range in H.
      rewrite length_fmap, length_seq in H. unfold l, py_range. lia.
Qed.

Lemma X15_witness :
  (1 ≤ length (date_mode_urls scenario_a))%nat ∧
  Z.of_nat (length (date_mode_urls scenario_a)) ≤ date_until scenario_a - date_from scenario_a + 1.
Proof.
  apply (X15_reverse_and_count_of_date_mode_urls scenario_a). vm_compute. discriminate.
Defined.

(** X16: without the next-page link, the pages asked for in the walk of a
    base URL are, in this order, the base URL itself and then the URLs
    [base + str(n)] for [n = min_pagenum, min_pagenum + 1, ...] without a
    gap: the page numbered [min_pagenum] is the second page of the walk. *)
Theorem X16_pages_are_numbered_from_min_pagenum :
  ∀ {World Html : Type} (env : Env World Html) (settings : Settings) (base : string),
    next_url_by_regex settings = false →
    ∀ fuel (st : State World Html),
      (1 ≤ fuel)%nat →
      ∃ n,
        archive_downloads
          (trace (outcome_state
                    (_gen_article_urls_from_archive_page_url_including_subpages
                       env settings fuel base st)))
        = archive_downloads (trace st)
          ++ base :: ((fun i => base +:+ pretty (min_pagenum settings + Z.of_nat i)) <$> seq 0 n).
Proof.
  intros World Html env settings base Hre fuel st Hfuel.
  destruct fuel as [|fuel]; [lia|].
  unfold _gen_article_urls_from_archive_page_url_including_subpages.
  destruct (archive_download_url env (world st) base) as [[html|] w] eqn:Hd.
  - rewrite (walk_archive_pages_downloaded _ _ _ _ _ _ _ _ _ Hd), Hre.
    set (st1 := add_good_url base _).
    destruct (process_urls_archive_side env settings
                (extract_article_urls_from_page env html settings) st1) as (_ & _ & _ & Ht).
    destruct (_extract_next_page_url _ _ _ _ _ _ _ _ _ _ _) as [url'|] eqn:En.
    + apply _extract_next_page_url_no_regex in En as (-> & _).
      destruct (walk_numbered_pages env settings base Hre fuel
                  (PyStr.format_concat base (min_pagenum settings)) (min_pagenum settings + 1)
                  (process_urls env settings
                     (extract_article_urls_from_page env html settings) st1))
        as (l & -> & Hl).
      rewrite Ht. simpl. rewrite archive_downloads_app. simpl. rewrite <- app_assoc. simpl.
      destruct Hl as [->|(n & ->)].
      * by exists 0%nat.
      * exists (S n). do 2 f_equal.
        by rewrite <- numbered_pages_S.
    + rewrite walk_archive_pages_stop. simpl. rewrite Ht. simpl.
      rewrite archive_downloads_app. simpl. by exists 0%nat.
  - rewrite (walk_archive_pages_failed _ _ _ _ _ _ _ _ Hd). simpl.
    rewrite archive_downloads_app. simpl. by exists 0%nat.
Qed.

Lemma X16_witness :
  ∃ n,
    archive_downloads
      (trace (outcome_state
                (_gen_article_urls_from_archive_page_url_including_subpages
                   site_one_article scenario_b 3 "https://x/?p=" (initial_state ∅ tt))))
    = archive_downloads (trace (initial_state (World := unit) (Html := Site.Page) ∅ tt))
      ++ "https://x/?p="
         :: ((fun i => "https://x/?p=" +:+ pretty (min_pagenum scenario_b + Z.of_nat i))
               <$> seq 0 n).
Proof.
  apply (X16_pages_are_numbered_from_min_pagenum site_one_article scenario_b "https://x/?p="
           eq_refl 3 (initial_state ∅ tt)).
  lia.
Defined.

(** ** The date put into the template *)

(** The month and the day of [ord2ymd], from the day of the year
    (counted from 0) and whether the year is a leap year. *)
Definition month_and_day (n : Z) (leapyear : bool) : Z * Z :=
  let month := Z.shiftr (n + 50) 5 in
  let preceding := PyDate.days_before_month leapyear month in
  if n <? preceding
  then (month - 1, n - (preceding - PyDate.days_in_month leapyear (month - 1)) + 1)
  else (month, n - preceding + 1).

Definition in_calendar (md : Z * Z) : bool :=
  (1 <=? fst md) && (fst md <=? 12) && (1 <=? snd md) && (snd md <=? 31).

Lemma below_forallb (f : Z → bool) (bound : nat) (n : Z) :
  forallb f (Z.of_nat <$> seq 0 bound) = true → 0 ≤ n < Z.of_nat bound → f n = true.
Proof.
  intros H Hn. rewrite forallb_forall in H. apply H.
  apply list_elem_of_In, list_elem_of_fmap. exists (Z.to_nat n). split; [lia|].
  apply elem_of_seq. lia.
Qed.

Lemma month_and_day_in_calendar n leapyear :
  0 ≤ n < 365 → in_calendar (month_and_day n leapyear) = true.
Proof.
  intros Hn.
  apply (below_forallb (fun n => in_calendar (month_and_day n leapyear)) 365); [|lia].
  destruct leapyear; vm_compute; reflexivity.
Qed.

Lemma string_app_length s t :
  String.length (s +:+ t) = (String.length s + String.length t)%nat.
Proof.
  induction s as [|c s IH]; [done|].
  change (S (String.length (s +:+ t)) = S (String.length s + String.length t)).
  by rewrite IH.
Qed.

Lemma pretty_N_go_length x s :
  String.length (pretty_N_go x s)
  = (String.length (pretty_N_go x "") + String.length s)%nat.
Proof.
  revert s. induction (N.lt_wf_0 x) as [x _ IH]; intros s.
  destruct (decide (x = 0%N)) as [->|Hx]; [by rewrite !pretty_N_go_0|].
  rewrite (pretty_N_go_step x s), (pretty_N_go_step x "") by lia.
  rewrite (IH (x `div` 10)%N) by (apply N.div_lt; lia).
  rewrite (IH (x `div` 10)%N ltac:(apply N.div_lt; lia) (String _ "")).
  simpl. lia.
Qed.

Lemma pretty_N_go_digits x :
  (0 < x)%N →
  String.length (pretty_N_go x "") = S (String.length (pretty_N_go (x `div` 10) "")).
Proof.
  intros Hx. rewrite pretty_N_go_step by done. rewrite pretty_N_go_length. simpl. lia.
Qed.

(** The number of decimal digits of a number below 10000. *)
Lemma pretty_N_go_digits_below x :
  (0 < x < 10000)%N →
  String.length (pretty_N_go x "")
  = if (x <? 10)%N then 1%nat else if (x <? 100)%N then 2%nat
    else if (x <? 1000)%N then 3%nat else 4%nat.
Proof.
  intros Hx.
  assert (∀ y, (y < 10)%N → String.length (pretty_N_go y "") = if (y =? 0)%N then 0%nat else 1%nat)
    as H1.
  { intros y Hy. destruct (N.eqb_spec y 0) as [->|Hne]; [done|].
    rewrite pretty_N_go_digits by lia. by rewrite N.div_small by done. }
  assert (∀ y, (10 ≤ y < 100)%N → String.length (pretty_N_go y "") = 2%nat) as H2.
  { intros y Hy. rewrite pretty_N_go_digits by lia.
    rewrite H1 by (apply N.Div0.div_lt_upper_bound; lia).
    destruct (N.eqb_spec (y `div` 10) 0) as [E|_]; [|done].
    assert (1 ≤ y `div` 10)%N by (apply N.div_le_lower_bound; lia). lia. }
  assert (∀ y, (100 ≤ y < 1000)%N → String.length (pretty_N_go y "") = 3%nat) as H3.
  { intros y Hy. rewrite pretty_N_go_digits by lia. rewrite H2; [done|]. split.
    - apply N.div_le_lower_bound; lia.
    - apply N.Div0.div_lt_upper_bound; lia. }
  assert (∀ y, (1000 ≤ y < 10000)%N → String.length (pretty_N_go y "") = 4%nat) as H4.
  { intros y Hy. rewrite pretty_N_go_digits by lia. rewrite H3; [done|]. split.
    - apply N.div_le_lower_bound; lia.
    - apply N.Div0.div_lt_upper_bound; lia. }
  destruct (N.ltb_spec x 10); [rewrite H1 by done; by destruct (N.eqb_spec x 0); [lia|]|].
  destruct (N.ltb_spec x 100); [apply H2; lia|].
  destruct (N.ltb_spec x 1000); [apply H3; lia|].
  apply H4; lia.
Qed.

Lemma pretty_Z_digits_below n :
  0 < n < 10000 →
  String.length (pretty n)
  = if n <? 10 then 1%nat else if n <? 100 then 2%nat
    else if n <? 1000 then 3%nat else 4%nat.
Proof.
  intros Hn. destruct n as [|p|p]; try lia.
  unfold pretty, pretty_Z, pretty, pretty_positive, pretty, pretty_N.
  rewrite decide_False by done. rewrite pretty_N_go_digits_below by lia.
  destruct (N.ltb_spec (N.pos p) 10), (Z.ltb_spec (Z.pos p) 10); try lia.
  destruct (N.ltb_spec (N.pos p) 100), (Z.ltb_spec (Z.pos p) 100); try lia.
  destruct (N.ltb_spec (N.pos p) 1000), (Z.ltb_spec (Z.pos p) 1000); try lia.
Qed.

Lemma format_0d_2_length n : 0 < n < 100 → String.length (PyStr.format_0d 2 n) = 2%nat.
Proof.
  intros Hn. unfold PyStr.format_0d, PyStr.zero_pad.
  rewrite string_app_length, pretty_Z_digits_below by lia.
  destruct (Z.ltb_spec n 10); [done|].
  destruct (Z.ltb_spec n 100); [done|lia].
Qed.

Lemma format_0d_4_length n : 0 < n < 10000 → String.length (PyStr.format_0d 4 n) = 4%nat.
Proof.
  intros Hn. unfold PyStr.format_0d, PyStr.zero_pad.
  rewrite string_app_length, pretty_Z_digits_below by lia.
  destruct (Z.ltb_spec n 10); [done|].
  destruct (Z.ltb_spec n 100); [done|].
  by destruct (Z.ltb_spec n 1000).
Qed.

Lemma ord2ymd_in_calendar d :
  1 ≤ d ≤ 3652059 →
  1 ≤ PyDate.year d ≤ 9999 ∧ 1 ≤ PyDate.month d ≤ 12 ∧ 1 ≤ PyDate.day d ≤ 31.
Proof.
  intros Hd. unfold PyDate.year, PyDate.month, PyDate.day, PyDate.ord2ymd.
  set (n0 := d - 1).
  set (n400 := n0 / 146097). set (r400 := n0 mod 146097).
  set (n100 := r400 / 36524). set (r100 := r400 mod 36524).
  set (n4 := r100 / 1461). set (r4 := r100 mod 1461).
  set (n1 := r4 / 365). set (r1 := r4 mod 365).
  assert (0 ≤ r1 < 365) as Hr1 by (apply Z.mod_pos_bound; lia).
  assert (0 ≤ n0 ≤ 3652058) as Hn0 by (unfold n0; lia).
  assert (n0 = 146097 * n400 + r400 ∧ 0 ≤ r400 < 146097) as [E400 B400]
    by (split; [apply Z.div_mod|apply Z.mod_pos_bound]; lia).
  assert (r400 = 36524 * n100 + r100 ∧ 0 ≤ r100 < 36524) as [E100 B100]
    by (split; [apply Z.div_mod|apply Z.mod_pos_bound]; lia).
  assert (r100 = 1461 * n4 + r4 ∧ 0 ≤ r4 < 1461) as [E4 B4]
    by (split; [apply Z.div_mod|apply Z.mod_pos_bound]; lia).
  assert (r4 = 365 * n1 + r1) as E1 by (apply Z.div_mod; lia).
  clearbody n0 n400 r400 n100 r100 n4 r4 n1 r1.
  destruct ((n1 =? 4) || (n100 =? 4)) eqn:E; simpl.
  - apply orb_true_iff in E. rewrite !Z.eqb_eq in E. lia.
  - apply orb_false_iff in E as [Ne1 Ne100]. apply Z.eqb_neq in Ne1, Ne100.
    pose proof (month_and_day_in_calendar r1
                  ((n1 =? 3) && (negb (n4 =? 24) || (n100 =? 3))) Hr1) as Hc.
    unfold in_calendar, month_and_day in Hc.
    destruct (r1 <? _); simpl in *;
      rewrite !andb_true_iff, !Z.leb_le in Hc; lia.
Qed.

(** X17: for every date that [datetime.date] can hold, the year put in
    place of [#year] has four characters and the month and the day put in
    place of [#month] and [#day] have two, the month being from 1 to 12
    and the day from 1 to 31. *)
Theorem X17_date_components_zero_padded :
  ∀ d : PyDate.date,
    1 ≤ d ≤ 3652059 →
    (1 ≤ PyDate.year d ≤ 9999 ∧ 1 ≤ PyDate.month d ≤ 12 ∧ 1 ≤ PyDate.day d ≤ 31) ∧
    String.length (PyStr.format_0d 4 (PyDate.year d)) = 4%nat ∧
    String.length (PyStr.format_0d 2 (PyDate.month d)) = 2%nat ∧
    String.length (PyStr.format_0d 2 (PyDate.day d)) = 2%nat.
Proof.
  intros d Hd. pose proof (ord2ymd_in_calendar d Hd) as (Hy & Hm & Hday).
  split; [done|]. split; [|split].
  - apply format_0d_4_length. lia.
  - apply format_0d_2_length. lia.
  - apply format_0d_2_length. lia.
Qed.

Lemma X17_witness :
  String.length (PyStr.format_0d 2 (PyDate.month 737425)) = 2%nat.
Proof. apply (X17_date_components_zero_padded 737425). lia. Defined.
